(** * Verification of the version checker and the fetch-models modal of ai-toolbox

    Shallow embedding of
    - [src/web/services/appApi.ts]: [compareVersions], [checkForUpdates];
    - [src/web/components/common/FetchModelsModal/index.tsx]: [filteredModels],
      [calculatedUrl], the [customUrl] effects, [handleFetch], [handleConfirm],
      the table [columns] and [rowSelection];
    - [src/web/app/providers.tsx]: the ['config-changed'] listener, with
      the refresh store;
    - [OhMyOpenCodeGlobalConfigModal.tsx]: [handleSubmit]. *)

From Stdlib Require Import String Ascii List Bool ZArith QArith Lia Lqa.
Import ListNotations.
Local Open Scope Z_scope.

(* ------------------------------------------------------------------ *)
(** ** JavaScript values used by the code *)

(** A JS [number]: an IEEE double.  Finite values are kept as rationals
    (both zeros are [JNum 0]); the comparisons [<] and [>] below are the
    ones of ECMAScript on numbers. *)
Inductive jsnum : Type :=
| JNaN
| JNum (q : Q)
| JPosInf
| JNegInf.

(** ToBoolean on a number: [0], [-0] and [NaN] are falsy. *)
Definition js_truthy (x : jsnum) : bool :=
  match x with
  | JNaN => false
  | JNum q => negb (Qeq_bool q 0%Q)
  | JPosInf | JNegInf => true
  end.

(** [a > b] on numbers (false as soon as one side is [NaN]); [a < b] is [b > a]. *)
Definition js_gt (a b : jsnum) : bool :=
  match a, b with
  | JNaN, _ | _, JNaN => false
  | JPosInf, JPosInf => false
  | JPosInf, _ => true
  | _, JPosInf => false
  | JNegInf, _ => false
  | _, JNegInf => true
  | JNum p, JNum q => negb (Qle_bool p q)
  end.

Definition js_lt (a b : jsnum) : bool := js_gt b a.

(** [parts[i] || 0] where [parts : number[]]: reading past the end yields
    [undefined], which is falsy like [0], [-0] and [NaN]. *)
Definition or0 (x : option jsnum) : jsnum :=
  match x with
  | Some v => if js_truthy v then v else JNum 0%Q
  | None => JNum 0%Q
  end.

(** [s.split(sep)] for a one-character separator: [""] splits to [[""]]. *)
Fixpoint split_on (sep : ascii) (s : string) : list string :=
  match s with
  | EmptyString => [EmptyString]
  | String c rest =>
      if Ascii.eqb c sep then EmptyString :: split_on sep rest
      else match split_on sep rest with
           | h :: t => String c h :: t
           | [] => [String c EmptyString]
           end
  end.

(** *** [Number(s)] on strings without a ['.']

    These are the only strings [compareVersions] hands to [Number], since it
    splits on ['.'].  StringToNumber: surrounding white space is trimmed; the
    empty string is [0]; [0x]/[0o]/[0b] literals; an optionally signed
    decimal integer with an optional exponent, or an optionally signed
    [Infinity]; anything else is [NaN].  The mathematical value is rounded
    to the nearest double (ties to even), overflowing to [Infinity] and
    underflowing to [0]; this is the correct rounding engines implement (the
    ECMAScript text lets a literal with more than 20 significant digits be
    rounded after its 20th digit instead). *)

Definition is_js_ws (c : ascii) : bool :=
  match nat_of_ascii c with
  | 9%nat | 10%nat | 11%nat | 12%nat | 13%nat | 32%nat | 160%nat => true
  | _ => false
  end.

Fixpoint drop_ws (l : list ascii) : list ascii :=
  match l with
  | c :: r => if is_js_ws c then drop_ws r else l
  | [] => []
  end.

Definition trim (l : list ascii) : list ascii := rev (drop_ws (rev (drop_ws l))).

Definition digit_in (base : Z) (c : ascii) : option Z :=
  let n := Z.of_nat (nat_of_ascii c) in
  let v := if (48 <=? n) && (n <=? 57) then Some (n - 48)
           else if (97 <=? n) && (n <=? 122) then Some (n - 87)
           else if (65 <=? n) && (n <=? 90) then Some (n - 55)
           else None in
  match v with
  | Some d => if d <? base then Some d else None
  | None => None
  end.

Fixpoint digits_acc (base acc : Z) (l : list ascii) : option Z :=
  match l with
  | [] => Some acc
  | c :: r =>
      match digit_in base c with
      | Some d => digits_acc base (acc * base + d) r
      | None => None
      end
  end.

(** One or more digits of the given base. *)
Definition digits (base : Z) (l : list ascii) : option Z :=
  match l with
  | [] => None
  | _ => digits_acc base 0 l
  end.

Definition is_e (c : ascii) : bool := Ascii.eqb c "e"%char || Ascii.eqb c "E"%char.

Fixpoint break_at_e (l : list ascii) : list ascii * option (list ascii) :=
  match l with
  | [] => ([], None)
  | c :: r =>
      if is_e c then ([], Some r)
      else let '(m, e) := break_at_e r in (c :: m, e)
  end.

Definition signed_digits (l : list ascii) : option Z :=
  match l with
  | c :: r =>
      if Ascii.eqb c "+"%char then digits 10 r
      else if Ascii.eqb c "-"%char then option_map Z.opp (digits 10 r)
      else digits 10 l
  | [] => None
  end.

Definition scale10 (m e : Z) : Q :=
  if 0 <=? e then inject_Z (m * 10 ^ e) else Qmake m (Z.to_pos (10 ^ (- e))).

(** [num / den] rounded to the nearest integer, ties to even ([den > 0]). *)
Definition round_div (num den : Z) : Z :=
  let qt := num / den in
  match Z.compare (2 * (num mod den)) den with
  | Lt => qt
  | Gt => qt + 1
  | Eq => if Z.even qt then qt else qt + 1
  end.

(** The double nearest to a non-negative rational: [e] is the binary
    exponent with [2^e <= q < 2^(e+1)], [u] the exponent of the last place
    of a 53-bit significand (at least [-1074], the subnormal one). *)
Definition round_double (q : Q) : jsnum :=
  let a := Qnum q in
  let b := Zpos (Qden q) in
  if a <=? 0 then JNum 0%Q
  else
    let d := Z.log2 a - Z.log2 b in
    let e := if (if 0 <=? d then b * 2 ^ d <=? a else b <=? a * 2 ^ (- d))
             then d else d - 1 in
    let u := Z.max (e - 52) (-1074) in
    if 0 <=? u then
      let n := round_div a (b * 2 ^ u) in
      if 2 ^ 1024 <=? n * 2 ^ u then JPosInf else JNum (inject_Z (n * 2 ^ u))
    else JNum (Qmake (round_div (a * 2 ^ (- u)) b) (Z.to_pos (2 ^ (- u)))).

(** [m * 10^e] for [m >= 0] as a double.  Past [10^400] every value
    overflows, and below [10^-400] (half the least subnormal is about
    [2.5 * 10^-324]) every value rounds to 0; [m < 10^(log2 m + 1)]. *)
Definition decimal_value (m e : Z) : jsnum :=
  if m =? 0 then JNum 0%Q
  else if 400 <? e then JPosInf
  else if e + Z.log2 m + 1 <? -400 then JNum 0%Q
  else round_double (scale10 m e).

Definition unsigned_decimal (l : list ascii) : jsnum :=
  if String.eqb (string_of_list_ascii l) "Infinity"%string then JPosInf
  else
    let '(mant, ex) := break_at_e l in
    match digits 10 mant, ex with
    | Some m, None => round_double (inject_Z m)
    | Some m, Some el =>
        match signed_digits el with
        | Some e => decimal_value m e
        | None => JNaN
        end
    | None, _ => JNaN
    end.

Definition js_neg (x : jsnum) : jsnum :=
  match x with
  | JNum q => JNum (- q)%Q
  | JPosInf => JNegInf
  | JNegInf => JPosInf
  | JNaN => JNaN
  end.

Definition radix_of (c : ascii) : option Z :=
  if Ascii.eqb c "x"%char || Ascii.eqb c "X"%char then Some 16%Z
  else if Ascii.eqb c "o"%char || Ascii.eqb c "O"%char then Some 8%Z
  else if Ascii.eqb c "b"%char || Ascii.eqb c "B"%char then Some 2%Z
  else None.

Definition of_digits (o : option Z) : jsnum :=
  match o with Some z => round_double (inject_Z z) | None => JNaN end.

Definition js_Number (s : string) : jsnum :=
  match trim (list_ascii_of_string s) with
  | [] => JNum 0%Q
  | l =>
      match l with
      | z :: x :: r =>
          if Ascii.eqb z "0"%char then
            match radix_of x with
            | Some b => of_digits (digits b r)
            | None => unsigned_decimal l
            end
          else if Ascii.eqb z "+"%char then unsigned_decimal (x :: r)
          else if Ascii.eqb z "-"%char then js_neg (unsigned_decimal (x :: r))
          else unsigned_decimal l
      | _ => unsigned_decimal l
      end
  end.

(* ------------------------------------------------------------------ *)
(** ** [compareVersions] (appApi.ts, lines 76-91)

    The loop is written over the JS semantics of [Number], which is a
    parameter of the section: every theorem stated with
    [compareVersions_with] holds whatever [Number] returns. *)

Section CompareVersions.
Variable Number : string -> jsnum.

(** [for (let i = 0; i < maxLength; i++)], with [fuel = maxLength - i]. *)
Fixpoint cmp_loop (parts1 parts2 : list jsnum) (i fuel : nat) : Z :=
  match fuel with
  | O => 0
  | S f =>
      let num1 := or0 (nth_error parts1 i) in
      let num2 := or0 (nth_error parts2 i) in
      if js_gt num1 num2 then 1
      else if js_lt num1 num2 then -1
      else cmp_loop parts1 parts2 (S i) f
  end.

Definition version_parts (v : string) : list jsnum := map Number (split_on "."%char v).

Definition compareVersions_with (v1 v2 : string) : Z :=
  let parts1 := version_parts v1 in
  let parts2 := version_parts v2 in
  let maxLength := Nat.max (length parts1) (length parts2) in
  cmp_loop parts1 parts2 0 maxLength.

End CompareVersions.

Definition compareVersions : string -> string -> Z := compareVersions_with js_Number.

(** Segment [i] of a parsed version as the loop reads it: [parts[i] || 0]. *)
Definition seg (parts : list jsnum) (i : nat) : jsnum := or0 (nth_error parts i).

(** Neither [a > b] nor [a < b]: the loop moves on to the next segment. *)
Definition tie (a b : jsnum) : Prop := js_gt a b = false /\ js_gt b a = false.

(** Segment-by-segment order over the first [n] positions: the first
    position where the segments do not tie decides, and [p1] is greater there. *)
Definition segs_gt (n : nat) (p1 p2 : list jsnum) : Prop :=
  exists k, (k < n)%nat /\
    (forall j, (j < k)%nat -> tie (seg p1 j) (seg p2 j)) /\
    js_gt (seg p1 k) (seg p2 k) = true.

(** All of the first [n] positions tie. *)
Definition segs_tie (n : nat) (p1 p2 : list jsnum) : Prop :=
  forall j, (j < n)%nat -> tie (seg p1 j) (seg p2 j).

(** The number of positions the loop visits: the longer sequence's length. *)
Definition max_len (p1 p2 : list jsnum) : nat := Nat.max (length p1) (length p2).

(* ------------------------------------------------------------------ *)
(** ** JS values *)

(** A JS value: what [JSON.parse] yields, and what a form store holds.
    An object's fields are listed once each, as in any JS object. *)
#[warnings="-register-all"]
Inductive jsv : Type :=
| JUndefined
| JNull
| JBool (b : bool)
| JNumber (n : jsnum)
| JString (s : string)
| JArray (xs : list jsv)
| JObject (fields : list (string * jsv)).

Fixpoint assoc_get (k : string) (fields : list (string * jsv)) : jsv :=
  match fields with
  | [] => JUndefined
  | (k', v) :: rest => if String.eqb k k' then v else assoc_get k rest
  end.

(** [o.k] on a non-nullish value: the keys read by the code ([version],
    [notes], the form's field names) are own properties of objects only. *)
Definition get (o : jsv) (k : string) : jsv :=
  match o with
  | JObject fields => assoc_get k fields
  | _ => JUndefined
  end.

(** ToBoolean, and [!!v]. *)
Definition truthy (v : jsv) : bool :=
  match v with
  | JUndefined | JNull => false
  | JBool b => b
  | JNumber n => js_truthy n
  | JString s => negb (String.eqb s "")
  | JArray _ | JObject _ => true
  end.

(** [a || b] *)
Definition js_or (a b : jsv) : jsv := if truthy a then a else b.

(* ------------------------------------------------------------------ *)
(** ** [checkForUpdates] (appApi.ts, lines 10-56) *)

Module AppApi.

(** A thrown JS value. *)
Inductive js_error : Type :=
| Error (message : string)         (** [new Error(...)] *)
| TypeError (message : string)     (** [fetch] rejects when the request fails;
                                       also a property read on [null] or a call
                                       of a non-function *)
| SyntaxError (message : string).  (** [response.json()] on a malformed body *)

(** The part of a fetch [Response] the code reads; [json_body] is what
    [response.json()] resolves with, [None] when it rejects. *)
Record Response : Type := {
  ok : bool;
  statusText : string;
  json_body : option jsv
}.

(** [releaseNotes] is whatever [release.notes || ''] yields. *)
Record UpdateInfo : Type := {
  hasUpdate : bool;
  currentVersion : string;
  latestVersion : string;
  releaseUrl : string;
  releaseNotes : jsv
}.

(** What the host provides: the outcome of Tauri's [getVersion] and the
    network seen by [fetch] ([None]: the request itself fails). *)
Record Host : Type := {
  host_version : js_error + string;
  host_net : string -> option Response
}.

(** The observable world: the URLs requested so far, most recent first. *)
Definition World : Type := list string.

(** An async computation that may throw. *)
Definition IO (A : Type) : Type := World -> World * (js_error + A).

Definition ret {A} (x : A) : IO A := fun w => (w, inr x).

Definition bind {A B} (c : IO A) (k : A -> IO B) : IO B :=
  fun w => match c w with
           | (w', inl e) => (w', inl e)
           | (w', inr x) => k x w'
           end.

Definition throw {A} (e : js_error) : IO A := fun w => (w, inl e).

(** A computation that issues no request. *)
Definition lift {A} (r : js_error + A) : IO A := fun w => (w, r).

Notation "x <- c ;; k" := (bind c (fun x => k)) (at level 61, c at next level, right associativity).

Definition getVersion (h : Host) : IO string := lift (host_version h).

Definition fetch (h : Host) (url : string) : IO Response :=
  fun w => (url :: w, match host_net h url with
                      | Some r => inr r
                      | None => inl (TypeError "Failed to fetch")
                      end).

Definition response_json (r : Response) : IO jsv :=
  match json_body r with
  | Some v => ret v
  | None => throw (SyntaxError "Unexpected token in JSON")
  end.

Definition GITHUB_REPO : string := "coulsontl/ai-toolbox".
Definition GITHUB_URL : string := ("https://github.com/" ++ GITHUB_REPO)%string.
Definition LATEST_JSON_URL : string :=
  ("https://github.com/" ++ GITHUB_REPO ++ "/releases/latest/download/latest.json")%string.

(** [s.replace(/^v/, '')] *)
Definition strip_v (s : string) : string :=
  match s with
  | String c r => if Ascii.eqb c "v"%char then r else s
  | EmptyString => s
  end.

(** [x || d] on strings: [""] is falsy. *)
Definition js_or_str (x : string) (d : string) : string :=
  if String.eqb x "" then d else x.

(** [release.version?.replace(/^v/, '') || ''] (line 47): reading [version]
    of [null] throws; [?.] stops at a nullish [version]; [replace] exists on
    strings only. *)
Definition release_version (release : jsv) : js_error + string :=
  match release with
  | JUndefined | JNull =>
      inl (TypeError "Cannot read properties of null (reading 'version')")
  | _ =>
      match get release "version" with
      | JUndefined | JNull => inr ""%string
      | JString v => inr (js_or_str (strip_v v) "")
      | _ => inl (TypeError "release.version?.replace is not a function")
      end
  end.

Definition checkForUpdates (h : Host) : IO UpdateInfo :=
  currentVersion <- getVersion h ;;
  response <- fetch h LATEST_JSON_URL ;;
  if negb (ok response) then
    throw (Error ("Failed to fetch latest.json: " ++ statusText response)%string)
  else
    release <- response_json response ;;
    latestVersion <- lift (release_version release) ;;
    ret {| hasUpdate := compareVersions latestVersion currentVersion >? 0;
           currentVersion := currentVersion;
           latestVersion := latestVersion;
           releaseUrl := (GITHUB_URL ++ "/releases/tag/v" ++ latestVersion)%string;
           releaseNotes := js_or (get release "notes") (JString "") |}.

End AppApi.

(* ------------------------------------------------------------------ *)
(** ** The fetch-models modal (FetchModelsModal/index.tsx and types.ts) *)

Module FetchModelsModal.

(** [type ApiType = 'native' | 'openai_compat'] *)
Inductive ApiType : Type := native | openai_compat.

(** [interface FetchedModel] *)
Record FetchedModel : Type := {
  id : string;
  name : option string;
  ownedBy : option string;
  created : option Z
}.

(** *** String helpers with the semantics of the JS builtins the code calls.
    A [string] stands for a JS string whose UTF-16 code units are all below
    256 (Latin-1 text), one [ascii] per code unit. *)

(** The lower case of a Latin-1 character: [A]-[Z] and the capitals
    U+00C0-U+00DE other than U+00D7 move up by 32; no other character below
    U+0100 changes, and none has a context-dependent lower case. *)
Definition lower_char (c : ascii) : ascii :=
  let n := nat_of_ascii c in
  if ((65 <=? n)%nat && (n <=? 90)%nat) ||
     ((192 <=? n)%nat && (n <=? 222)%nat && negb (n =? 215)%nat)
  then ascii_of_nat (n + 32) else c.

(** [s.toLowerCase()] *)
Fixpoint toLowerCase (s : string) : string :=
  match s with
  | EmptyString => EmptyString
  | String c r => String (lower_char c) (toLowerCase r)
  end.

(** [s.startsWith(p)] *)
Fixpoint startsWith (s p : string) : bool :=
  match p, s with
  | EmptyString, _ => true
  | String c p', String d s' => Ascii.eqb c d && startsWith s' p'
  | String _ _, EmptyString => false
  end.

(** [s.includes(sub)] *)
Fixpoint includes (s sub : string) : bool :=
  startsWith s sub ||
  match s with
  | EmptyString => false
  | String _ r => includes r sub
  end.

Definition list_ascii_eqb (l1 l2 : list ascii) : bool :=
  if list_eq_dec ascii_dec l1 l2 then true else false.

(** [s.endsWith(suffix)] *)
Definition endsWith (s suffix : string) : bool :=
  let l := list_ascii_of_string s in
  let t := list_ascii_of_string suffix in
  (List.length t <=? List.length l)%nat &&
  list_ascii_eqb (skipn (List.length l - List.length t) l) t.

(** [s.slice(0, -n)] for [0 < n <= s.length] *)
Definition slice_drop_end (s : string) (n : nat) : string :=
  let l := list_ascii_of_string s in
  string_of_list_ascii (firstn (List.length l - n) l).

(** [baseUrl.replace(/\/$/, '')] *)
Definition strip_trailing_slash (s : string) : string :=
  if endsWith s "/" then slice_drop_end s 1 else s.

(** [x && x.toLowerCase().includes(q)] on [string | undefined], tested for truthiness. *)
Definition opt_includes (x : option string) (q : string) : bool :=
  match x with
  | Some v => if String.eqb v "" then false else includes (toLowerCase v) q
  | None => false
  end.

(** [x === lit] on [string | undefined] *)
Definition opt_is (x : option string) (lit : string) : bool :=
  match x with Some v => String.eqb v lit | None => false end.

(** *** [filteredModels] (lines 38-46) *)
Definition filteredModels (models : list FetchedModel) (searchText : string) : list FetchedModel :=
  if String.eqb searchText "" then models
  else
    let lowerSearch := toLowerCase searchText in
    filter (fun m => includes (toLowerCase (id m)) lowerSearch ||
                     opt_includes (name m) lowerSearch ||
                     opt_includes (ownedBy m) lowerSearch) models.

(** *** [calculatedUrl] (lines 49-76) *)
Definition calculatedUrl (baseUrl : string) (apiType : ApiType)
    (sdkType apiKey : option string) : string :=
  let base := strip_trailing_slash baseUrl in
  let baseStripped :=
    if endsWith base "/v1beta" then slice_drop_end base (String.length "/v1beta")
    else if endsWith base "/v1" then slice_drop_end base (String.length "/v1")
    else base in
  match apiType with
  | native =>
      if opt_is sdkType "@ai-sdk/google" then
        let url := (baseStripped ++ "/v1beta/models")%string in
        match apiKey with
        | Some k => if String.eqb k "" then url else (url ++ "?key=" ++ k)%string
        | None => url
        end
      else if opt_is sdkType "@ai-sdk/anthropic" then (baseStripped ++ "/v1/models")%string
      else (baseStripped ++ "/v1/models")%string
  | openai_compat => (baseStripped ++ "/v1/models")%string
  end.

(** *** The component's props and state *)

(** [FetchModelsModalProps] (the callbacks are the events below). *)
Record Props : Type := {
  open : bool;
  baseUrl : string;
  apiKey : option string;
  sdkType : option string;
  existingModelIds : list string
}.

(** The [useState] cells, plus the dependency values the two [useEffect]s
    saw at the last commit ([None] before the first one). *)
Record State : Type := {
  loading : bool;
  apiType : ApiType;
  models : list FetchedModel;
  selectedRowKeys : list string;
  error : option string;
  fetched : bool;
  customUrl : string;
  searchText : string;
  seen_calculatedUrl : option string;
  seen_open : option bool
}.

Definition set_loading (b : bool) (s : State) : State :=
  {| loading := b; apiType := apiType s; models := models s;
     selectedRowKeys := selectedRowKeys s; error := error s; fetched := fetched s;
     customUrl := customUrl s; searchText := searchText s;
     seen_calculatedUrl := seen_calculatedUrl s; seen_open := seen_open s |}.
Definition set_apiType (t : ApiType) (s : State) : State :=
  {| loading := loading s; apiType := t; models := models s;
     selectedRowKeys := selectedRowKeys s; error := error s; fetched := fetched s;
     customUrl := customUrl s; searchText := searchText s;
     seen_calculatedUrl := seen_calculatedUrl s; seen_open := seen_open s |}.
Definition set_models (ms : list FetchedModel) (s : State) : State :=
  {| loading := loading s; apiType := apiType s; models := ms;
     selectedRowKeys := selectedRowKeys s; error := error s; fetched := fetched s;
     customUrl := customUrl s; searchText := searchText s;
     seen_calculatedUrl := seen_calculatedUrl s; seen_open := seen_open s |}.
Definition set_selectedRowKeys (ks : list string) (s : State) : State :=
  {| loading := loading s; apiType := apiType s; models := models s;
     selectedRowKeys := ks; error := error s; fetched := fetched s;
     customUrl := customUrl s; searchText := searchText s;
     seen_calculatedUrl := seen_calculatedUrl s; seen_open := seen_open s |}.
Definition set_error (e : option string) (s : State) : State :=
  {| loading := loading s; apiType := apiType s; models := models s;
     selectedRowKeys := selectedRowKeys s; error := e; fetched := fetched s;
     customUrl := customUrl s; searchText := searchText s;
     seen_calculatedUrl := seen_calculatedUrl s; seen_open := seen_open s |}.
Definition set_fetched (b : bool) (s : State) : State :=
  {| loading := loading s; apiType := apiType s; models := models s;
     selectedRowKeys := selectedRowKeys s; error := error s; fetched := b;
     customUrl := customUrl s; searchText := searchText s;
     seen_calculatedUrl := seen_calculatedUrl s; seen_open := seen_open s |}.
Definition set_customUrl (u : string) (s : State) : State :=
  {| loading := loading s; apiType := apiType s; models := models s;
     selectedRowKeys := selectedRowKeys s; error := error s; fetched := fetched s;
     customUrl := u; searchText := searchText s;
     seen_calculatedUrl := seen_calculatedUrl s; seen_open := seen_open s |}.
Definition set_searchText (q : string) (s : State) : State :=
  {| loading := loading s; apiType := apiType s; models := models s;
     selectedRowKeys := selectedRowKeys s; error := error s; fetched := fetched s;
     customUrl := customUrl s; searchText := q;
     seen_calculatedUrl := seen_calculatedUrl s; seen_open := seen_open s |}.
Definition set_seen (u : string) (o : bool) (s : State) : State :=
  {| loading := loading s; apiType := apiType s; models := models s;
     selectedRowKeys := selectedRowKeys s; error := error s; fetched := fetched s;
     customUrl := customUrl s; searchText := searchText s;
     seen_calculatedUrl := Some u; seen_open := Some o |}.

(** The [calculatedUrl] memo of the current render. *)
Definition calc (p : Props) (s : State) : string :=
  calculatedUrl (baseUrl p) (apiType s) (sdkType p) (apiKey p).

(** The [useState] initialisers (lines 22-32). *)
Definition initial_state (p : Props) : State :=
  {| loading := false;
     apiType := if opt_is (sdkType p) "@ai-sdk/google" || opt_is (sdkType p) "@ai-sdk/anthropic"
                then native else openai_compat;
     models := []; selectedRowKeys := []; error := None; fetched := false;
     customUrl := ""; searchText := "";
     seen_calculatedUrl := None; seen_open := None |}.

Definition opt_eqb {A} (eqb : A -> A -> bool) (x : option A) (y : A) : bool :=
  match x with Some v => eqb v y | None => false end.

(** The two effects after a commit, in declaration order; an effect runs when
    one of its dependencies differs from the previous commit's value.
    - lines 79-81: [setCustomUrl(calculatedUrl)] on [[calculatedUrl]];
    - lines 84-94: on [[open, calculatedUrl]], if [open], reset the modal. *)
Definition run_effects (p : Props) (s : State) : State :=
  let c := calc p s in
  let url_changed := negb (opt_eqb String.eqb (seen_calculatedUrl s) c) in
  let open_changed := negb (opt_eqb Bool.eqb (seen_open s) (open p)) in
  let s1 := if url_changed then set_customUrl c s else s in
  let s2 := if (url_changed || open_changed) && open p then
              set_customUrl c (set_searchText "" (set_fetched false (set_error None
                (set_selectedRowKeys [] (set_models [] s1)))))
            else s1 in
  set_seen c (open p) s2.

(** The first render and its effects. *)
Definition mount (p : Props) : Props * State := (p, run_effects p (initial_state p)).

(** What [invoke('fetch_provider_models', ...)] settles with: the response's
    models, or the thrown value ([Error] object or anything else). *)
Inductive Thrown : Type :=
| ThrownError (message : string)
| ThrownOther (printed : string).

Definition thrown_message (t : Thrown) : string :=
  match t with ThrownError m => m | ThrownOther v => v end.

(** [handleFetch] (lines 97-129), up to its [await]. *)
Definition handleFetch_start (s : State) : State := set_error None (set_loading true s).

(** [handleFetch] after [invoke] settles: the [try] body or the [catch], then
    [finally].  Toast messages are not state. *)
Definition handleFetch_settle (s : State) (r : Thrown + list FetchedModel) : State :=
  let s1 := match r with
            | inr ms => set_selectedRowKeys [] (set_fetched true (set_models ms s))
            | inl err => set_error (Some (thrown_message err)) s
            end in
  set_loading false s1.

(** [handleConfirm] (lines 132-135): the list passed to [onSuccess]. *)
Definition handleConfirm (s : State) : list FetchedModel :=
  filter (fun m => existsb (String.eqb (id m)) (selectedRowKeys s)) (models s).

(** A table row as rendered through [columns] (lines 138-164) and
    [rowSelection.getCheckboxProps] (lines 169-172). *)
Record Row : Type := {
  row_model : FetchedModel;
  row_alreadyExists : bool;
  row_disabled : bool
}.

Definition render_row (existing : list string) (m : FetchedModel) : Row :=
  {| row_model := m;
     row_alreadyExists := existsb (String.eqb (id m)) existing;
     row_disabled := existsb (String.eqb (id m)) existing |}.

(** The rows of the [Table] whose [dataSource] is [dataSource]. *)
Definition table_rows (existing : list string) (dataSource : list FetchedModel) : list Row :=
  map (render_row existing) dataSource.

(** User and parent events. *)
Inductive Event : Type :=
| ParentRender (p : Props)             (** new props from the parent *)
| SelectApiType (t : ApiType)          (** the radio group, line 208 *)
| EditUrl (u : string)                 (** the URL input, line 234 *)
| ResetUrl                             (** the reset button, line 243 *)
| EditSearch (q : string)              (** the search input, line 265 *)
| SelectRows (keys : list string)      (** [rowSelection.onChange], line 168 *)
| FetchClick                           (** the fetch button, line 257 *)
| FetchSettled (r : Thrown + list FetchedModel).

(** One event, the re-render and the effects. *)
Definition step (c : Props * State) (e : Event) : Props * State :=
  let '(p, s) := c in
  let '(p', s') :=
    match e with
    | ParentRender p' => (p', s)
    | SelectApiType t => (p, set_apiType t s)
    | EditUrl u => (p, set_customUrl u s)
    | ResetUrl => (p, set_customUrl (calc p s) s)
    | EditSearch q => (p, set_searchText q s)
    | SelectRows keys => (p, set_selectedRowKeys keys s)
    | FetchClick => (p, handleFetch_start s)
    | FetchSettled r => (p, handleFetch_settle s r)
    end in
  (p', run_effects p' s').

Definition run (c : Props * State) (es : list Event) : Props * State := fold_left step es c.

End FetchModelsModal.

(* ------------------------------------------------------------------ *)
(** ** The ['config-changed'] listener (app/providers.tsx) and the refresh
    store (the zustand store with [omoConfigRefreshKey]) *)

Module Providers.
(** The refresh store's data; the counters are JS numbers, exact integers
    below 2^53. *)
Record RefreshState : Type := {
  omoConfigRefreshKey : Z;
  claudeProviderRefreshKey : Z
}.

Definition refresh_initial : RefreshState :=
  {| omoConfigRefreshKey := 0; claudeProviderRefreshKey := 0 |}.

Definition incrementOmoConfigRefresh (st : RefreshState) : RefreshState :=
  {| omoConfigRefreshKey := omoConfigRefreshKey st + 1;
     claudeProviderRefreshKey := claudeProviderRefreshKey st |}.

Definition incrementClaudeProviderRefresh (st : RefreshState) : RefreshState :=
  {| omoConfigRefreshKey := omoConfigRefreshKey st;
     claudeProviderRefreshKey := claudeProviderRefreshKey st + 1 |}.

(** The ['config-changed'] listener (lines 41-48). *)
Definition on_config_changed (st : RefreshState) (configType : string) : RefreshState :=
  if String.eqb configType "oh-my-opencode" then incrementOmoConfigRefresh st
  else if String.eqb configType "claude-code" then incrementClaudeProviderRefresh st
  else st.

(** The events delivered to the listener, in order. *)
Definition deliver (st : RefreshState) (payloads : list string) : RefreshState :=
  fold_left on_config_changed payloads st.

Definition count_of (x : string) (l : list string) : Z :=
  Z.of_nat (List.length (filter (String.eqb x) l)).

End Providers.

(* ------------------------------------------------------------------ *)
(** ** [handleSubmit] of the oh-my-opencode global config modal
    (OhMyOpenCodeGlobalConfigModal.tsx, lines 92-133) *)

Module OmoGlobalConfig.

Definition DEFAULT_SCHEMA : string :=
  ("https://raw.githubusercontent.com/code-yeongyu/oh-my-opencode/" ++
   "master/assets/oh-my-opencode.schema.json")%string.

Definition sisyphus_keys : list string :=
  ["disabled"; "default_builder_enabled"; "planner_enabled"; "replace_plan"]%string.

Definition list_keys : list string := ["disabledAgents"; "disabledMcps"; "disabledHooks"]%string.

Definition json_keys : list string := ["lsp"; "experimental"; "otherFields"]%string.

(** [handleSubmit] with the three validity refs and [form.getFieldsValue(true)]:
    [Some result] is the value passed to [onSuccess]; [None] is the early
    return of lines 97-100.  [loading] is [false] afterwards on every path. *)
Definition handleSubmit (lspValid experimentalValid otherFieldsValid : bool)
    (fieldsValue : jsv) : option jsv :=
  if negb lspValid || negb experimentalValid || negb otherFieldsValid then None
  else
    let allValues := js_or fieldsValue (JObject []) in
    let sisyphusAgentFromForm := js_or (get allValues "sisyphusAgent") (JObject []) in
    let sisyphusAgent :=
      JObject (map (fun k => (k, JBool (truthy (get sisyphusAgentFromForm k)))) sisyphus_keys) in
    Some (JObject
      ([("schema", js_or (get allValues "schema") (JString DEFAULT_SCHEMA));
        ("sisyphusAgent", sisyphusAgent)] ++
       map (fun k => (k, js_or (get allValues k) (JArray []))) list_keys ++
       map (fun k => (k, get allValues k)) json_keys))%string.

End OmoGlobalConfig.

(* ------------------------------------------------------------------ *)
(** ** Substrings, as the claims speak of them *)

(** [sub] occurs in [s] as a contiguous substring. *)
Definition contains_sub (s sub : string) : Prop :=
  exists pre suf, s = (pre ++ sub ++ suf)%string.

(* ------------------------------------------------------------------ *)
(** ** The fetch-models claims in their own words *)

Module ModalSpec.
Import FetchModelsModal.

(** [s] ends with [t]. *)
Definition ends_in (s t : string) : Prop := exists x, s = (x ++ t)%string.

(** Removing one trailing ['/'], if there is one. *)
Inductive slash_stripped : string -> string -> Prop :=
| ss_slash (x : string) : slash_stripped (x ++ "/") x
| ss_none (b : string) : ~ ends_in b "/" -> slash_stripped b b.

(** Removing one trailing ['/v1beta'] or ['/v1'] suffix, if there is one. *)
Inductive version_stripped : string -> string -> Prop :=
| vs_v1beta (x : string) : version_stripped (x ++ "/v1beta") x
| vs_v1 (x : string) : version_stripped (x ++ "/v1") x
| vs_none (b : string) : ~ ends_in b "/v1beta" -> ~ ends_in b "/v1" -> version_stripped b b.

(** The path appended to the stripped base: the policy table of the spec,
    with the key parameter added when the key is a non-empty string. *)
Definition endpoint_table (t : ApiType) (sdk key : option string) : string :=
  match t with
  | openai_compat => "/v1/models"
  | native =>
      if opt_is sdk "@ai-sdk/google" then
        match key with
        | Some k => if String.eqb k "" then "/v1beta/models" else ("/v1beta/models?key=" ++ k)%string
        | None => "/v1beta/models"
        end
      else "/v1/models"
  end.

(** The URL as the claim words it: a trailing ['/v1'] or ['/v1beta'] is
    stripped from the base URL as given, and the key is appended whenever
    one is present. *)
Definition claimed_fetch_url (baseUrl : string) (t : ApiType) (sdk key : option string) : string :=
  let stripped :=
    if endsWith baseUrl "/v1beta" then slice_drop_end baseUrl 7
    else if endsWith baseUrl "/v1" then slice_drop_end baseUrl 3
    else baseUrl in
  match t with
  | openai_compat => (stripped ++ "/v1/models")%string
  | native =>
      if opt_is sdk "@ai-sdk/google" then
        match key with
        | Some k => (stripped ++ "/v1beta/models?key=" ++ k)%string
        | None => (stripped ++ "/v1beta/models")%string
        end
      else (stripped ++ "/v1/models")%string
  end.

(** [q] occurs in [field], ignoring case. *)
Definition ci_contains (field q : string) : Prop :=
  contains_sub (toLowerCase field) (toLowerCase q).

(** The id, the name if present or the owner if present contains [q]. *)
Definition model_matches (q : string) (m : FetchedModel) : Prop :=
  ci_contains (id m) q \/
  (exists n, name m = Some n /\ ci_contains n q) \/
  (exists o, ownedBy m = Some o /\ ci_contains o q).

End ModalSpec.

(* ------------------------------------------------------------------ *)
(** ** The version order in the claims' words: integer segments *)

Module VersionSpec.

(** The exact value of a nonempty run of decimal digits. *)
Fixpoint digits_value (acc : Z) (s : string) : option Z :=
  match s with
  | EmptyString => Some acc
  | String c r =>
      let d := Z.of_nat (nat_of_ascii c) - 48 in
      if (0 <=? d) && (d <=? 9) then digits_value (10 * acc + d) r else None
  end.

(** A segment as an integer; a malformed or unparsable segment counts as 0. *)
Definition int_segment (s : string) : Z :=
  match s with
  | EmptyString => 0
  | _ => match digits_value 0 s with Some z => z | None => 0 end
  end.

(** Segment by segment, the first differing segment decides; a missing
    segment counts as 0. *)
Fixpoint seq_greater (n : nat) (a b : list Z) : bool :=
  match n with
  | O => false
  | S n' =>
      let x := hd 0 a in
      let y := hd 0 b in
      if x >? y then true else if x <? y then false else seq_greater n' (tl a) (tl b)
  end.

(** "The latest version's integer segment sequence is greater than the
    current version's." *)
Definition claimed_hasUpdate (latest current : string) : bool :=
  let a := map int_segment (split_on "."%char latest) in
  let b := map int_segment (split_on "."%char current) in
  seq_greater (Nat.max (length a) (length b)) a b.

End VersionSpec.

(* ------------------------------------------------------------------ *)
(** ** Sample inputs for the update check *)

(** The body of a published [latest.json]. *)
Definition sample_release : jsv :=
  JObject [("version", JString "v2.0.0"); ("notes", JString "Bug fixes");
           ("pub_date", JString "2025-01-01T00:00:00Z")]%string.

Definition sample_ok_response : AppApi.Response :=
  {| AppApi.ok := true; AppApi.statusText := "OK"%string;
     AppApi.json_body := Some sample_release |}.

Definition sample_404_response : AppApi.Response :=
  {| AppApi.ok := false; AppApi.statusText := "Not Found"%string;
     AppApi.json_body := None |}.

(** A host at version [1.9.9] whose network answers every request with [r]. *)
Definition sample_host (r : AppApi.Response) : AppApi.Host :=
  {| AppApi.host_version := inr "1.9.9"%string; AppApi.host_net := fun _ => Some r |}.

(** A host already running the published version [2.0.0]. *)
Definition sample_current_host : AppApi.Host :=
  {| AppApi.host_version := inr "2.0.0"%string; AppApi.host_net := fun _ => Some sample_ok_response |}.

(** A host at version [9007199254740992] (2^53) whose [latest.json] announces
    [v9007199254740993]. *)
Definition sample_big_release : jsv :=
  JObject [("version", JString "v9007199254740993")]%string.

Definition sample_big_host : AppApi.Host :=
  {| AppApi.host_version := inr "9007199254740992"%string;
     AppApi.host_net := fun _ => Some {| AppApi.ok := true; AppApi.statusText := "OK"%string;
                                         AppApi.json_body := Some sample_big_release |} |}.

(* ------------------------------------------------------------------ *)
(** ** Sample inputs for the modal *)

Section ModalSamples.
Import FetchModelsModal.

(** The dependency values the effects last saw are those of the current render. *)
Definition committed (p : Props) (s : State) : Prop :=
  seen_calculatedUrl s = Some (calc p s) /\ seen_open s = Some (open p).

(** An open modal for a Google provider (so the API type starts as [native]). *)
Definition demo_props : Props :=
  {| open := true; baseUrl := "https://api.example.com/v1"%string;
     apiKey := Some "KEY"%string; sdkType := Some "@ai-sdk/google"%string;
     existingModelIds := [] |}.

(** The same provider with the modal closed. *)
Definition demo_props_closed : Props :=
  {| open := false; baseUrl := "https://api.example.com/v1"%string;
     apiKey := Some "KEY"%string; sdkType := Some "@ai-sdk/google"%string;
     existingModelIds := [] |}.

Definition demo_props_new_key : Props :=
  {| open := true; baseUrl := "https://api.example.com/v1"%string;
     apiKey := Some "KEY2"%string; sdkType := Some "@ai-sdk/google"%string;
     existingModelIds := [] |}.

(** The user has typed their own URL into the field. *)
Definition demo_edited : Props * State :=
  run (mount demo_props) [EditUrl "https://proxy.example.com/models"%string].

Definition demo_gpt4 : FetchedModel :=
  {| id := "gpt-4"%string; name := None; ownedBy := Some "OpenAI"%string; created := None |}.

Definition demo_gpt5 : FetchedModel :=
  {| id := "gpt-5"%string; name := None; ownedBy := Some "OpenAI"%string; created := None |}.

(** Both models fetched, selected as gpt-5 then gpt-4, and the search text
    hides gpt-4. *)
Definition demo_selected : Props * State :=
  run (mount demo_props)
      [FetchSettled (inr [demo_gpt4; demo_gpt5]);
       SelectRows ["gpt-5"%string; "gpt-4"%string];
       EditSearch "gpt-5"%string].

End ModalSamples.

(* ================================================================== *)
(** * Proofs *)

(* ------------------------------------------------------------------ *)
(** ** Facts about the comparisons *)

Lemma js_gt_irrefl (a : jsnum) : js_gt a a = false.
Proof.
  destruct a; simpl; try reflexivity.
  apply negb_false_iff, Qle_bool_iff, Qle_refl.
Qed.

Lemma js_gt_asym (a b : jsnum) : js_gt a b = true -> js_gt b a = false.
Proof.
  destruct a, b; simpl; try discriminate; try reflexivity.
  intros H. apply negb_true_iff in H. apply negb_false_iff.
  apply Qle_bool_iff. apply Qlt_le_weak, Qnot_le_lt.
  intros Hle. apply Qle_bool_iff in Hle. congruence.
Qed.

Lemma or0_not_nan (x : option jsnum) : or0 x <> JNaN.
Proof. destruct x as [[]|]; simpl; try destruct (negb _); discriminate. Qed.

Section LoopFacts.
Variables parts1 parts2 : list jsnum.

Lemma cmp_loop_range (i f : nat) :
  cmp_loop parts1 parts2 i f = 1 \/ cmp_loop parts1 parts2 i f = -1 \/
  cmp_loop parts1 parts2 i f = 0.
Proof.
  revert i; induction f as [|f IH]; intros i; simpl; [auto|].
  destruct (js_gt _ _); [auto|]. unfold js_lt. destruct (js_gt _ _); auto.
Qed.

Lemma cmp_loop_gt (i f : nat) :
  cmp_loop parts1 parts2 i f = 1 <->
  exists k, (i <= k < i + f)%nat /\
    (forall j, (i <= j < k)%nat -> tie (seg parts1 j) (seg parts2 j)) /\
    js_gt (seg parts1 k) (seg parts2 k) = true.
Proof.
  revert i; induction f as [|f IH]; intros i; simpl.
  - split; [discriminate|]. intros (k & Hk & _); lia.
  - unfold js_lt, seg in *.
    destruct (js_gt (or0 (nth_error parts1 i)) (or0 (nth_error parts2 i))) eqn:E1.
    + split; [|reflexivity]. intros _. exists i. split; [lia|]. split; [|exact E1].
      intros j Hj; lia.
    + destruct (js_gt (or0 (nth_error parts2 i)) (or0 (nth_error parts1 i))) eqn:E2.
      * split; [discriminate|]. intros (k & Hk & Hpre & Hgt).
        destruct (Nat.eq_dec k i) as [->|Hne]; [congruence|].
        destruct (Hpre i) as [_ Hc]; [lia|]. congruence.
      * rewrite IH. split.
        -- intros (k & Hk & Hpre & Hgt). exists k. split; [lia|]. split; [|exact Hgt].
           intros j Hj. destruct (Nat.eq_dec j i) as [->|Hne]; [split; assumption|].
           apply Hpre; lia.
        -- intros (k & Hk & Hpre & Hgt).
           destruct (Nat.eq_dec k i) as [->|Hne]; [congruence|].
           exists k. split; [lia|]. split; [|exact Hgt]. intros j Hj; apply Hpre; lia.
Qed.

Lemma cmp_loop_zero (i f : nat) :
  cmp_loop parts1 parts2 i f = 0 <->
  forall j, (i <= j < i + f)%nat -> tie (seg parts1 j) (seg parts2 j).
Proof.
  revert i; induction f as [|f IH]; intros i; simpl.
  - split; [intros _ j Hj; lia|reflexivity].
  - unfold js_lt, seg in *.
    destruct (js_gt (or0 (nth_error parts1 i)) (or0 (nth_error parts2 i))) eqn:E1.
    + split; [discriminate|]. intros H. destruct (H i) as [Hc _]; [lia|]. congruence.
    + destruct (js_gt (or0 (nth_error parts2 i)) (or0 (nth_error parts1 i))) eqn:E2.
      * split; [discriminate|]. intros H. destruct (H i) as [_ Hc]; [lia|]. congruence.
      * rewrite IH. split.
        -- intros H j Hj. destruct (Nat.eq_dec j i) as [->|Hne]; [split; assumption|].
           apply H; lia.
        -- intros H j Hj. apply H; lia.
Qed.

End LoopFacts.

Lemma cmp_loop_swap (p1 p2 : list jsnum) (i f : nat) :
  cmp_loop p1 p2 i f = - cmp_loop p2 p1 i f.
Proof.
  revert i; induction f as [|f IH]; intros i; simpl; [reflexivity|].
  unfold js_lt.
  destruct (js_gt (or0 (nth_error p1 i)) (or0 (nth_error p2 i))) eqn:E1.
  - rewrite (js_gt_asym _ _ E1). reflexivity.
  - destruct (js_gt (or0 (nth_error p2 i)) (or0 (nth_error p1 i))); [reflexivity|].
    apply IH.
Qed.

Lemma cmp_loop_refl (p : list jsnum) (i f : nat) : cmp_loop p p i f = 0.
Proof.
  revert i; induction f as [|f IH]; intros i; simpl; [reflexivity|].
  unfold js_lt. rewrite js_gt_irrefl. apply IH.
Qed.

Lemma compareVersions_with_gt (N : string -> jsnum) (v1 v2 : string) :
  compareVersions_with N v1 v2 = 1 <->
  segs_gt (max_len (version_parts N v1) (version_parts N v2))
          (version_parts N v1) (version_parts N v2).
Proof.
  unfold compareVersions_with, segs_gt, max_len. rewrite cmp_loop_gt. split.
  - intros (k & Hk & Hpre & Hgt). exists k. split; [lia|]. split; [|exact Hgt].
    intros j Hj; apply Hpre; lia.
  - intros (k & Hk & Hpre & Hgt). exists k. split; [lia|]. split; [|exact Hgt].
    intros j Hj; apply Hpre; lia.
Qed.

Lemma compareVersions_with_tie (N : string -> jsnum) (v1 v2 : string) :
  compareVersions_with N v1 v2 = 0 <->
  segs_tie (max_len (version_parts N v1) (version_parts N v2))
           (version_parts N v1) (version_parts N v2).
Proof.
  unfold compareVersions_with, segs_tie, max_len. rewrite cmp_loop_zero. split.
  - intros H j Hj; apply H; lia.
  - intros H j Hj; apply H; lia.
Qed.

Lemma compareVersions_with_antisym (N : string -> jsnum) (a b : string) :
  compareVersions_with N a b = - compareVersions_with N b a.
Proof.
  unfold compareVersions_with. rewrite Nat.max_comm. apply cmp_loop_swap.
Qed.

Lemma compareVersions_with_range (N : string -> jsnum) (a b : string) :
  compareVersions_with N a b = 1 \/ compareVersions_with N a b = -1 \/
  compareVersions_with N a b = 0.
Proof. apply cmp_loop_range. Qed.

Lemma max_len_comm (p1 p2 : list jsnum) : max_len p1 p2 = max_len p2 p1.
Proof. unfold max_len. apply Nat.max_comm. Qed.

Lemma seg_default (p : list jsnum) (i : nat) :
  (length p <= i)%nat \/ nth_error p i = Some JNaN -> seg p i = JNum 0%Q.
Proof.
  unfold seg. intros [H|H].
  - apply nth_error_None in H. rewrite H. reflexivity.
  - rewrite H. reflexivity.
Qed.

(* ------------------------------------------------------------------ *)
(** ** Claims on [compareVersions] *)

(** C1: [compareVersions] is total and returns -1, 0 or 1; it splits both
    arguments on ['.'], reads each segment with [Number] (a missing trailing
    segment or a [NaN] one counts as 0), walks the positions up to the longer
    length and the first position that does not tie decides; moreover
    [compareVersions "1.2.0" "1.10.0" = -1] and [compareVersions "1.2" "1.2.0" = 0]. *)
Theorem compareVersions_total_segmentwise :
  (forall v1 v2 : string,
     let p1 := version_parts js_Number v1 in
     let p2 := version_parts js_Number v2 in
     (compareVersions v1 v2 = 1 \/ compareVersions v1 v2 = -1 \/
      compareVersions v1 v2 = 0) /\
     (compareVersions v1 v2 = 1 <-> segs_gt (max_len p1 p2) p1 p2) /\
     (compareVersions v1 v2 = -1 <-> segs_gt (max_len p1 p2) p2 p1) /\
     (compareVersions v1 v2 = 0 <-> segs_tie (max_len p1 p2) p1 p2) /\
     (forall i, (length p1 <= i)%nat \/ nth_error p1 i = Some JNaN ->
                seg p1 i = JNum 0%Q)) /\
  compareVersions "1.2.0" "1.10.0" = -1 /\
  compareVersions "1.2" "1.2.0" = 0.
Proof.
  split; [|split; reflexivity].
  intros v1 v2. cbv zeta. unfold compareVersions.
  split; [apply compareVersions_with_range|].
  split; [apply compareVersions_with_gt|].
  split.
  - rewrite compareVersions_with_antisym, max_len_comm.
    rewrite <- compareVersions_with_gt. lia.
  - split; [apply compareVersions_with_tie|]. intros i; apply seg_default.
Qed.

(** C9: [compareVersions] is anti-symmetric,
    [compareVersions a b = - compareVersions b a], and reflexive,
    [compareVersions a a = 0], for all strings. *)
Theorem compareVersions_antisym_refl :
  (forall a b : string, compareVersions a b = - compareVersions b a) /\
  (forall a : string, compareVersions a a = 0).
Proof.
  split.
  - intros a b. apply compareVersions_with_antisym.
  - intros a. unfold compareVersions, compareVersions_with. apply cmp_loop_refl.
Qed.


Lemma str_append_empty_r (s : string) : (s ++ "")%string = s.
Proof. induction s as [|c s IH]; simpl; [reflexivity|]. rewrite IH. reflexivity. Qed.

(* ------------------------------------------------------------------ *)
(** ** Claims on [checkForUpdates] *)

Section UpdateClaims.
Import AppApi.

(** C2: when [getVersion] gives the current version [cur] and the fetched
    [latest.json] gives the latest version [lv] (the leading [v] stripped),
    [checkForUpdates] returns an [UpdateInfo] whose [hasUpdate] is true
    exactly when the segments of [lv], each read by JS [Number] as a double,
    are greater than those of [cur] at the first position that does not tie,
    unparsable, [NaN] and missing segments counting as 0; it is false
    exactly when all positions tie or the current version is the greater. *)
Theorem checkForUpdates_hasUpdate_iff (h : Host) (w : World) (cur : string)
    (r : Response) (body : jsv) (lv : string) :
  host_version h = inr cur ->
  host_net h LATEST_JSON_URL = Some r -> ok r = true -> json_body r = Some body ->
  release_version body = inr lv ->
  let pl := version_parts js_Number lv in
  let pc := version_parts js_Number cur in
  exists info,
    checkForUpdates h w = (LATEST_JSON_URL :: w, inr info) /\
    currentVersion info = cur /\
    latestVersion info = lv /\
    (hasUpdate info = true <-> segs_gt (max_len pl pc) pl pc) /\
    (hasUpdate info = false <-> segs_tie (max_len pl pc) pl pc \/ segs_gt (max_len pl pc) pc pl).
Proof.
  intros Hver Hnet Hok Hjson Hrel pl pc.
  unfold checkForUpdates, bind, getVersion, lift, fetch, ret. rewrite Hver, Hnet, Hok. simpl.
  unfold response_json. rewrite Hjson. unfold ret. simpl. rewrite Hrel.
  eexists. split; [reflexivity|]. simpl. split; [reflexivity|]. split; [reflexivity|].
  pose proof (compareVersions_total_segmentwise) as [Hall _].
  destruct (Hall lv cur) as (Hr & Hgt & Hlt & Htie & _).
  fold pl pc in Hgt, Hlt, Htie. rewrite <- Hgt, <- Htie, <- Hlt.
  destruct Hr as [E|[E|E]]; rewrite E; simpl; intuition discriminate.
Qed.

(** C7: when the response to the request for [latest.json] is not ok,
    [checkForUpdates] throws an [Error] whose message is
    ["Failed to fetch latest.json: "] followed by the status text (so it
    contains the status text); the error reaches the caller, no [UpdateInfo]
    is returned and the request is issued exactly once. *)
Theorem checkForUpdates_http_error (h : Host) (w : World) (cur : string) (r : Response) :
  host_version h = inr cur ->
  host_net h LATEST_JSON_URL = Some r -> ok r = false ->
  let msg := ("Failed to fetch latest.json: " ++ statusText r)%string in
  checkForUpdates h w = (LATEST_JSON_URL :: w, inl (Error msg)) /\
  contains_sub msg (statusText r).
Proof.
  intros Hver Hnet Hok msg.
  split.
  - unfold checkForUpdates, bind, getVersion, lift, fetch, ret. rewrite Hver, Hnet, Hok. reflexivity.
  - exists "Failed to fetch latest.json: "%string, ""%string. subst msg.
    rewrite str_append_empty_r. reflexivity.
Qed.

(** C2, as claimed, is refuted: with current version [9007199254740992]
    (2^53) and latest [v9007199254740993], the integer segments of the
    latest are greater, but [Number("9007199254740993")] rounds to 2^53, so
    [checkForUpdates] reports no update. *)
Lemma checkForUpdates_hasUpdate_claim_counterexample :
  exists info,
    checkForUpdates sample_big_host [] = ([LATEST_JSON_URL], inr info) /\
    currentVersion info = "9007199254740992"%string /\
    latestVersion info = "9007199254740993"%string /\
    hasUpdate info = false /\
    VersionSpec.claimed_hasUpdate (latestVersion info) (currentVersion info) = true.
Proof.
  eexists. split; [vm_compute; reflexivity|].
  vm_compute. repeat split.
Qed.

End UpdateClaims.

Section UpdateWitnesses.
Import AppApi.

Lemma checkForUpdates_hasUpdate_iff_witness :
  exists info, checkForUpdates (sample_host sample_ok_response) [] =
                 ([LATEST_JSON_URL], inr info) /\ hasUpdate info = true.
Proof.
  destruct (checkForUpdates_hasUpdate_iff (sample_host sample_ok_response) [] "1.9.9"%string
              sample_ok_response sample_release "2.0.0"%string eq_refl eq_refl eq_refl eq_refl eq_refl)
    as (info & E & _ & _ & Hiff & _).
  exists info. split; [exact E|].
  vm_compute in E. injection E as <-. reflexivity.
Defined.

Lemma checkForUpdates_http_error_witness :
  checkForUpdates (sample_host sample_404_response) [] =
    ([LATEST_JSON_URL], inl (Error "Failed to fetch latest.json: Not Found"%string)).
Proof.
  exact (proj1 (checkForUpdates_http_error (sample_host sample_404_response) [] "1.9.9"%string
                  sample_404_response eq_refl eq_refl eq_refl)).
Defined.

End UpdateWitnesses.

(* ------------------------------------------------------------------ *)
(** ** String facts *)

Section StringFacts.
Import FetchModelsModal ModalSpec.

Lemma las_app (a b : string) :
  list_ascii_of_string (a ++ b) = list_ascii_of_string a ++ list_ascii_of_string b.
Proof. induction a as [|c a IH]; simpl; [reflexivity|]. rewrite IH. reflexivity. Qed.

Lemma las_length (s : string) : List.length (list_ascii_of_string s) = String.length s.
Proof. induction s as [|c s IH]; simpl; [reflexivity|]. rewrite IH. reflexivity. Qed.

Lemma las_inj (a b : string) : list_ascii_of_string a = list_ascii_of_string b -> a = b.
Proof.
  intros H. rewrite <- (string_of_list_ascii_of_string a), <- (string_of_list_ascii_of_string b), H.
  reflexivity.
Qed.

Lemma list_ascii_eqb_true (l1 l2 : list ascii) : list_ascii_eqb l1 l2 = true <-> l1 = l2.
Proof. unfold list_ascii_eqb. destruct (list_eq_dec ascii_dec l1 l2); split; congruence. Qed.

Lemma skipn_len_app {A : Type} (l1 l2 : list A) : skipn (List.length l1) (l1 ++ l2) = l2.
Proof. induction l1 as [|x l1 IH]; simpl; auto. Qed.

Lemma firstn_len_app {A : Type} (l1 l2 : list A) : firstn (List.length l1) (l1 ++ l2) = l1.
Proof. induction l1 as [|x l1 IH]; simpl; [reflexivity|]. rewrite IH. reflexivity. Qed.

Lemma endsWith_iff (s t : string) : endsWith s t = true <-> ends_in s t.
Proof.
  unfold endsWith, ends_in. rewrite andb_true_iff, Nat.leb_le, list_ascii_eqb_true. split.
  - intros [Hle Hs].
    set (k := (List.length (list_ascii_of_string s) - List.length (list_ascii_of_string t))%nat) in *.
    exists (string_of_list_ascii (firstn k (list_ascii_of_string s))).
    apply las_inj. rewrite las_app, list_ascii_of_string_of_list_ascii, <- Hs, firstn_skipn.
    reflexivity.
  - intros [x ->]. rewrite las_app, length_app.
    replace (List.length (list_ascii_of_string x) + List.length (list_ascii_of_string t)
             - List.length (list_ascii_of_string t))%nat
      with (List.length (list_ascii_of_string x)) by lia.
    split; [lia|]. apply skipn_len_app.
Qed.

Lemma slice_drop_end_app (x t : string) : slice_drop_end (x ++ t) (String.length t) = x.
Proof.
  unfold slice_drop_end. rewrite las_app, length_app, <- las_length.
  replace (List.length (list_ascii_of_string x) + List.length (list_ascii_of_string t)
           - List.length (list_ascii_of_string t))%nat
    with (List.length (list_ascii_of_string x)) by lia.
  rewrite firstn_len_app. apply string_of_list_ascii_of_string.
Qed.

Lemma append_cancel_r (x y t : string) : (x ++ t)%string = (y ++ t)%string -> x = y.
Proof.
  intros H. apply (f_equal list_ascii_of_string) in H. rewrite !las_app in H.
  apply app_inv_tail in H. apply las_inj, H.
Qed.

Lemma append_assoc_str (a b c : string) : ((a ++ b) ++ c)%string = (a ++ (b ++ c))%string.
Proof. induction a as [|x a IH]; simpl; [reflexivity|]. rewrite IH. reflexivity. Qed.

Lemma startsWith_iff (s p : string) : startsWith s p = true <-> exists suf, s = (p ++ suf)%string.
Proof.
  revert s; induction p as [|c p IH]; intros s.
  - destruct s; simpl; split; eauto.
  - destruct s as [|d s]; simpl.
    + split; [discriminate|]. intros [suf H]; discriminate.
    + rewrite andb_true_iff, IH, Ascii.eqb_eq. split.
      * intros [-> [suf ->]]. eauto.
      * intros [suf H]. injection H as -> ->. eauto.
Qed.

Lemma includes_iff (s sub : string) : includes s sub = true <-> contains_sub s sub.
Proof.
  unfold contains_sub. induction s as [|c s IH]; cbn -[startsWith]; rewrite orb_true_iff, startsWith_iff.
  - split.
    + intros [[suf H]|H]; [exists ""%string, suf; exact H|discriminate].
    + intros [pre [suf H]]. destruct pre; [left; eauto|discriminate].
  - rewrite IH. split.
    + intros [[suf H]|[pre [suf H]]].
      * exists ""%string, suf. exact H.
      * exists (String c pre), suf. simpl. rewrite H. reflexivity.
    + intros [pre [suf H]]. destruct pre as [|d pre].
      * left. eauto.
      * right. injection H as _ H. eauto.
Qed.

Lemma toLowerCase_empty (q : string) : toLowerCase q = ""%string <-> q = ""%string.
Proof. destruct q; simpl; split; congruence. Qed.

Lemma contains_sub_empty_l (x : string) : contains_sub "" x -> x = ""%string.
Proof. intros [pre [suf H]]. destruct pre, x; simpl in H; congruence. Qed.

Lemma contains_sub_empty_r (s : string) : contains_sub s "".
Proof. exists s, ""%string. simpl. symmetry. apply str_append_empty_r. Qed.

End StringFacts.

(* ------------------------------------------------------------------ *)
(** ** Claims on the model list: search, reconciliation, confirmation *)

Section ModelListClaims.
Import FetchModelsModal ModalSpec.

Lemma opt_includes_iff (x : option string) (q : string) :
  q <> ""%string ->
  opt_includes x (toLowerCase q) = true <-> exists n, x = Some n /\ ci_contains n q.
Proof.
  intros Hq. destruct x as [v|]; simpl.
  - destruct (String.eqb_spec v "") as [->|Hv].
    + split; [discriminate|]. intros [n [Hn Hc]]. injection Hn as <-.
      unfold ci_contains in Hc. simpl in Hc.
      apply contains_sub_empty_l in Hc. apply (proj1 (toLowerCase_empty q)) in Hc. contradiction.
    + rewrite includes_iff. split; [intros H; eauto|].
      intros [n [Hn Hc]]. injection Hn as <-. exact Hc.
  - split; [discriminate|]. intros [n [Hn _]]; discriminate.
Qed.

Lemma existsb_eqb_In (x : string) (l : list string) : existsb (String.eqb x) l = true <-> In x l.
Proof.
  rewrite existsb_exists. split.
  - intros [y [Hy E]]. apply String.eqb_eq in E. subst. exact Hy.
  - intros H. exists x. split; [exact H|apply String.eqb_refl].
Qed.

(** C5: the search filter keeps, in their order, exactly the models whose
    id, name (if present) or owner (if present) contains the query ignoring
    case (it is [filter] with that test over the input list); with the empty
    query it returns its input; and the query ["openai"] selects the model
    [{id: "gpt-4", ownedBy: "OpenAI"}] through its owner. *)
Theorem filteredModels_search (models : list FetchedModel) (q : string) :
  filteredModels models ""%string = models /\
  (exists P : FetchedModel -> bool,
     (forall m, P m = true <-> model_matches q m) /\
     filteredModels models q = filter P models) /\
  let gpt4 := {| id := "gpt-4"%string; name := None; ownedBy := Some "OpenAI"%string;
                 created := None |} in
  filteredModels [gpt4] "openai"%string = [gpt4].
Proof.
  split; [reflexivity|]. split; [|reflexivity].
  unfold filteredModels. destruct (String.eqb_spec q "") as [->|Hq].
  - exists (fun _ => true). split.
    + intros m. split; [intros _|reflexivity]. left. apply contains_sub_empty_r.
    + induction models as [|m ms IH]; simpl; [reflexivity|]. rewrite <- IH. reflexivity.
  - eexists. split; [|reflexivity].
    intros m. unfold model_matches.
    rewrite !orb_true_iff, includes_iff, !opt_includes_iff by exact Hq.
    unfold ci_contains. tauto.
Qed.

(** C6: the table renders one row per fetched model, in the fetched order
    and without merging duplicates; a row is marked "already exists" exactly
    when its id is one of the existing ids, and its checkbox is disabled
    exactly when it is so marked; with no search text the table shows every
    fetched model. *)
Theorem table_rows_reconcile (existing : list string) (fetched : list FetchedModel) :
  map row_model (table_rows existing fetched) = fetched /\
  Forall (fun r => (row_alreadyExists r = true <-> In (id (row_model r)) existing) /\
                   row_disabled r = row_alreadyExists r)
         (table_rows existing fetched) /\
  table_rows existing (filteredModels fetched "") = table_rows existing fetched.
Proof.
  split; [|split; [|reflexivity]].
  - induction fetched as [|m ms IH]; simpl; [reflexivity|]. rewrite IH. reflexivity.
  - unfold table_rows. apply Forall_map, Forall_forall. intros m _. simpl.
    split; [apply existsb_eqb_In|reflexivity].
Qed.

(** C10: on confirmation the models passed to [onSuccess] are the fetched
    models whose id is among the selected keys, in the fetched order; the
    result does not depend on the search text nor on the order (or
    repetitions) of the selected keys. *)
Theorem handleConfirm_selected (s : State) (keys : list string) (q : string) :
  (forall k, In k keys <-> In k (selectedRowKeys s)) ->
  handleConfirm (set_searchText q (set_selectedRowKeys keys s)) = handleConfirm s /\
  (forall m, In m (handleConfirm s) <-> In m (models s) /\ In (id m) (selectedRowKeys s)) /\
  (exists P : FetchedModel -> bool,
     (forall m, P m = true <-> In (id m) (selectedRowKeys s)) /\
     handleConfirm s = filter P (models s)).
Proof.
  intros Hkeys. unfold handleConfirm. split; [|split].
  - simpl. apply filter_ext. intros m. apply Bool.eq_iff_eq_true.
    rewrite !existsb_eqb_In. apply Hkeys.
  - intros m. rewrite filter_In, existsb_eqb_In. reflexivity.
  - eexists. split; [|reflexivity]. intros m. apply existsb_eqb_In.
Qed.

End ModelListClaims.

(* ------------------------------------------------------------------ *)
(** ** Claims on the modal's state *)

Section ModalStateClaims.
Import FetchModelsModal.

Lemma run_effects_committed (p : Props) (s : State) : committed p (run_effects p s).
Proof.
  unfold committed, run_effects, calc.
  destruct (negb _), (negb (opt_eqb Bool.eqb _ _)), (open p); reflexivity || (split; reflexivity).
Qed.

Lemma step_committed (c : Props * State) (e : Event) :
  committed (fst (step c e)) (snd (step c e)).
Proof. destruct c as [p s]. destruct e; apply run_effects_committed. Qed.

Lemma run_committed (c : Props * State) (es : list Event) :
  committed (fst c) (snd c) -> committed (fst (run c es)) (snd (run c es)).
Proof.
  unfold run. revert c; induction es as [|e es IH]; intros c Hc; simpl; [exact Hc|].
  apply IH, step_committed.
Qed.

Lemma reachable_committed (p : Props) (es : list Event) :
  committed (fst (run (mount p) es)) (snd (run (mount p) es)).
Proof. apply run_committed, run_effects_committed. Qed.

Lemma run_effects_noop (p : Props) (s : State) : committed p s -> run_effects p s = s.
Proof.
  unfold committed, run_effects. intros [Hu Ho]. rewrite Hu, Ho. simpl.
  rewrite String.eqb_refl, Bool.eqb_reflx. simpl.
  destruct s; simpl in *. rewrite Hu, Ho. reflexivity.
Qed.

Lemma handleFetch_start_committed (p : Props) (s : State) :
  committed p s -> committed p (handleFetch_start s).
Proof. intros H. exact H. Qed.

Lemma handleFetch_settle_committed (p : Props) (s : State) r :
  committed p s -> committed p (handleFetch_settle s r).
Proof. intros H. destruct r; exact H. Qed.

(** C8: a failing fetch leaves the fetched model list as it was: neither
    the start of [handleFetch] nor its [catch] path touch [models], the
    error is recorded in [error]; and in every state reachable from the
    first render, the click on the fetch button and the failed settlement
    (with their re-render and effects) keep the list. *)
Theorem handleFetch_failure_keeps_models :
  (forall (s : State) (err : Thrown),
     models (handleFetch_start s) = models s /\
     models (handleFetch_settle s (inl err)) = models s /\
     error (handleFetch_settle s (inl err)) = Some (thrown_message err)) /\
  (forall (p : Props) (es : list Event) (err : Thrown),
     let c := run (mount p) es in
     models (snd (step c FetchClick)) = models (snd c) /\
     models (snd (step c (FetchSettled (inl err)))) = models (snd c)).
Proof.
  split.
  - intros s err. split; [reflexivity|]. split; reflexivity.
  - intros p es err c. pose proof (reachable_committed p es) as Hc. fold c in Hc.
    destruct c as [p' s]. cbn [fst snd] in Hc.
    cbn -[run_effects handleFetch_start handleFetch_settle]. split.
    + rewrite run_effects_noop by (apply handleFetch_start_committed, Hc). reflexivity.
    + rewrite run_effects_noop by (apply handleFetch_settle_committed, Hc). reflexivity.
Qed.

(** C4 (code bug): the modal is open, the user has typed their own URL,
    then switches the API type, or the parent passes a new API key: the
    effect on [calculatedUrl] replaces the user's URL with the computed
    default, although no reset was asked for and the modal was not reopened. *)
Theorem customUrl_edit_overwritten :
  customUrl (snd demo_edited) = "https://proxy.example.com/models"%string /\
  open (fst (step demo_edited (SelectApiType openai_compat))) = true /\
  customUrl (snd (step demo_edited (SelectApiType openai_compat))) =
    "https://api.example.com/v1/models"%string /\
  customUrl (snd (step demo_edited (ParentRender demo_props_new_key))) =
    "https://api.example.com/v1beta/models?key=KEY2"%string.
Proof. vm_compute. repeat split. Qed.

End ModalStateClaims.

(* ------------------------------------------------------------------ *)
(** ** Claims on the derived model-listing URL *)

Section UrlClaims.
Import FetchModelsModal ModalSpec.

Lemma v1_not_v1beta (x y : string) : (x ++ "/v1")%string <> (y ++ "/v1beta")%string.
Proof.
  intros H. apply (f_equal (fun s => rev (list_ascii_of_string s))) in H.
  rewrite !las_app, !rev_app_distr in H. simpl in H. discriminate.
Qed.

Lemma slash_stripped_iff (b b1 : string) :
  slash_stripped b b1 <-> strip_trailing_slash b = b1.
Proof.
  unfold strip_trailing_slash. split.
  - intros H. destruct H as [x|b Hn].
    + assert (E : endsWith (x ++ "/") "/" = true) by (apply endsWith_iff; exists x; reflexivity).
      rewrite E. exact (slice_drop_end_app x "/").
    + destruct (endsWith b "/") eqn:E; [|reflexivity].
      apply endsWith_iff in E. contradiction.
  - destruct (endsWith b "/") eqn:E; intros <-.
    + apply endsWith_iff in E. destruct E as [x ->].
      change (slice_drop_end (x ++ "/") 1) with (slice_drop_end (x ++ "/") (String.length "/")).
      rewrite (slice_drop_end_app x "/"). constructor.
    + constructor. intros Hc. apply endsWith_iff in Hc. congruence.
Qed.

Lemma version_stripped_iff (b1 B : string) :
  version_stripped b1 B <->
  (if endsWith b1 "/v1beta" then slice_drop_end b1 (String.length "/v1beta")
   else if endsWith b1 "/v1" then slice_drop_end b1 (String.length "/v1")
   else b1) = B.
Proof.
  split.
  - intros H. destruct H as [x|x|b Hb Hv].
    + assert (E : endsWith (x ++ "/v1beta") "/v1beta" = true)
        by (apply endsWith_iff; exists x; reflexivity).
      rewrite E. apply slice_drop_end_app.
    + destruct (endsWith (x ++ "/v1") "/v1beta") eqn:E.
      * apply endsWith_iff in E. destruct E as [y Hy]. exfalso. exact (v1_not_v1beta x y Hy).
      * assert (E' : endsWith (x ++ "/v1") "/v1" = true)
          by (apply endsWith_iff; exists x; reflexivity).
        rewrite E'. apply slice_drop_end_app.
    + destruct (endsWith b "/v1beta") eqn:E.
      { apply endsWith_iff in E. contradiction. }
      destruct (endsWith b "/v1") eqn:E'.
      { apply endsWith_iff in E'. contradiction. }
      reflexivity.
  - destruct (endsWith b1 "/v1beta") eqn:E.
    { intros <-. apply endsWith_iff in E. destruct E as [x ->].
      rewrite slice_drop_end_app. constructor. }
    destruct (endsWith b1 "/v1") eqn:E'.
    { intros <-. apply endsWith_iff in E'. destruct E' as [x ->].
      rewrite slice_drop_end_app. constructor. }
    intros <-. constructor.
    + intros Hc. apply endsWith_iff in Hc. congruence.
    + intros Hc. apply endsWith_iff in Hc. congruence.
Qed.

(** C3 (as amended): the URL is the base URL with one trailing ['/']
    removed and then one trailing ['/v1beta'] or ['/v1'] removed, followed
    by ['/v1/models'] for [openai_compat]; for [native] with the Google SDK
    ['@ai-sdk/google'], ['/v1beta/models'] plus ['?key={apiKey}'] when the
    key is a non-empty string; ['/v1/models'] for [native] with any other
    SDK.  Both documented examples hold. *)
Theorem calculatedUrl_policy (b : string) (t : ApiType) (sdk key : option string) :
  (exists b1 B, slash_stripped b b1 /\ version_stripped b1 B) /\
  (forall b1 B, slash_stripped b b1 -> version_stripped b1 B ->
     calculatedUrl b t sdk key = (B ++ endpoint_table t sdk key)%string) /\
  calculatedUrl "https://api.x.com/v1" native (Some "@ai-sdk/google"%string)
                (Some "KEY"%string) = "https://api.x.com/v1beta/models?key=KEY"%string /\
  calculatedUrl "https://api.x.com/v1beta" native (Some "@ai-sdk/anthropic"%string)
                None = "https://api.x.com/v1/models"%string.
Proof.
  split; [|split; [|split; reflexivity]].
  - eexists. eexists. split; [apply slash_stripped_iff; reflexivity|].
    apply version_stripped_iff. reflexivity.
  - intros b1 B Hs Hv. apply slash_stripped_iff in Hs. apply version_stripped_iff in Hv.
    unfold calculatedUrl. rewrite Hs, Hv. unfold endpoint_table.
    destruct t; [|reflexivity].
    destruct (opt_is sdk "@ai-sdk/google"); [|destruct (opt_is sdk "@ai-sdk/anthropic"); reflexivity].
    destruct key as [k|]; [|reflexivity].
    destruct (String.eqb k ""); [reflexivity|]. rewrite append_assoc_str. reflexivity.
Qed.

(** C3 counterexample: for the base URL ["https://api.x.com/v1/"] the code
    removes the trailing slash and then ['/v1'], while the claim, which strips
    the suffix from the base URL as given, yields a doubled path; with an
    empty key the code appends no [?key=]. *)
Lemma calculatedUrl_claim_counterexample :
  calculatedUrl "https://api.x.com/v1/" native (Some "@ai-sdk/anthropic"%string) None
    = "https://api.x.com/v1/models"%string /\
  claimed_fetch_url "https://api.x.com/v1/" native (Some "@ai-sdk/anthropic"%string) None
    = "https://api.x.com/v1//v1/models"%string /\
  calculatedUrl "https://api.x.com" native (Some "@ai-sdk/google"%string) (Some ""%string)
    = "https://api.x.com/v1beta/models"%string /\
  claimed_fetch_url "https://api.x.com" native (Some "@ai-sdk/google"%string) (Some ""%string)
    = "https://api.x.com/v1beta/models?key="%string /\
  ~ (forall b t sdk key, calculatedUrl b t sdk key = claimed_fetch_url b t sdk key).
Proof.
  split; [reflexivity|]. split; [reflexivity|]. split; [reflexivity|]. split; [reflexivity|].
  intros H. specialize (H "https://api.x.com/v1/"%string native
                          (Some "@ai-sdk/anthropic"%string) None).
  vm_compute in H. discriminate.
Qed.

End UrlClaims.

Section ModalWitnesses.
Import FetchModelsModal.

Lemma handleConfirm_selected_witness :
  handleConfirm (snd demo_selected) = [demo_gpt4; demo_gpt5] /\
  handleConfirm (set_searchText "claude"%string
                   (set_selectedRowKeys ["gpt-4"%string; "gpt-5"%string] (snd demo_selected)))
    = handleConfirm (snd demo_selected).
Proof.
  split; [vm_compute; reflexivity|].
  apply (proj1 (handleConfirm_selected (snd demo_selected)
                  ["gpt-4"%string; "gpt-5"%string] "claude"%string
                  ltac:(intros k; vm_compute; tauto))).
Defined.

End ModalWitnesses.

(* ================================================================== *)
(** * Further properties of the code *)

(* ------------------------------------------------------------------ *)
(** ** The order [compareVersions] defines *)

Section VersionOrder.

Lemma Qgt_bool_true (p q : Q) : negb (Qle_bool p q) = true <-> (q < p)%Q.
Proof.
  rewrite negb_true_iff. split.
  - intros H. apply Qnot_le_lt. intros Hle. apply Qle_bool_iff in Hle. congruence.
  - intros H. destruct (Qle_bool p q) eqn:E; [|reflexivity].
    apply Qle_bool_iff in E. exfalso. apply (Qlt_not_le q p H E).
Qed.

Lemma Qgt_bool_false (p q : Q) : negb (Qle_bool p q) = false <-> (p <= q)%Q.
Proof. rewrite negb_false_iff. apply Qle_bool_iff. Qed.

Ltac jsnum_cases :=
  unfold tie in *; simpl in *; intros;
  repeat match goal with H : _ /\ _ |- _ => destruct H end;
  try rewrite Qgt_bool_true in *; try rewrite Qgt_bool_false in *;
  try rewrite Qgt_bool_true; try rewrite Qgt_bool_false;
  try congruence; try (split; congruence); try lra;
  try (split; lra).

Lemma tie_trans (a b c : jsnum) :
  b <> JNaN -> tie a b -> tie b c -> tie a c.
Proof. intros Hb. destruct a, b, c; jsnum_cases. Qed.

Lemma gt_tie_trans (a b c : jsnum) :
  c <> JNaN -> js_gt a b = true -> tie b c -> js_gt a c = true.
Proof. intros Hc. destruct a, b, c; jsnum_cases. Qed.

Lemma tie_gt_trans (a b c : jsnum) :
  a <> JNaN -> tie a b -> js_gt b c = true -> js_gt a c = true.
Proof. intros Ha. destruct a, b, c; jsnum_cases. Qed.

Lemma gt_gt_trans (a b c : jsnum) :
  js_gt a b = true -> js_gt b c = true -> js_gt a c = true.
Proof. destruct a, b, c; jsnum_cases. Qed.

Lemma seg_not_nan (p : list jsnum) (i : nat) : seg p i <> JNaN.
Proof. apply or0_not_nan. Qed.

(** Past the longer sequence both segments read as 0. *)
Lemma seg_past (p1 p2 : list jsnum) (j : nat) :
  (max_len p1 p2 <= j)%nat -> seg p1 j = JNum 0%Q /\ seg p2 j = JNum 0%Q.
Proof.
  unfold max_len. intros H. split; apply seg_default; left; lia.
Qed.

(** The loop over [max_len] positions decides as the infinite sequences
    padded with zeros do. *)
Lemma cmp_full_gt (p1 p2 : list jsnum) :
  cmp_loop p1 p2 0 (max_len p1 p2) = 1 <->
  exists k, (forall j, (j < k)%nat -> tie (seg p1 j) (seg p2 j)) /\
            js_gt (seg p1 k) (seg p2 k) = true.
Proof.
  rewrite cmp_loop_gt. split.
  - intros (k & Hk & Hpre & Hgt). exists k. split; [|exact Hgt].
    intros j Hj; apply Hpre; lia.
  - intros (k & Hpre & Hgt). exists k.
    destruct (Nat.lt_ge_cases k (max_len p1 p2)) as [Hk|Hk].
    + split; [lia|]. split; [|exact Hgt]. intros j Hj; apply Hpre; lia.
    + destruct (seg_past p1 p2 k Hk) as [E1 E2]. rewrite E1, E2, js_gt_irrefl in Hgt.
      discriminate.
Qed.

Lemma cmp_full_tie (p1 p2 : list jsnum) :
  cmp_loop p1 p2 0 (max_len p1 p2) = 0 <-> forall j, tie (seg p1 j) (seg p2 j).
Proof.
  rewrite cmp_loop_zero. split.
  - intros H j. destruct (Nat.lt_ge_cases j (max_len p1 p2)) as [Hj|Hj].
    + apply H; lia.
    + destruct (seg_past p1 p2 j Hj) as [E1 E2]. rewrite E1, E2.
      split; apply js_gt_irrefl.
  - intros H j _. apply H.
Qed.

(** The loop only sees the segments. *)
Lemma cmp_full_ext (p1 p2 q1 q2 : list jsnum) :
  (forall j, seg p1 j = seg q1 j) -> (forall j, seg p2 j = seg q2 j) ->
  cmp_loop p1 p2 0 (max_len p1 p2) = cmp_loop q1 q2 0 (max_len q1 q2).
Proof.
  intros H1 H2.
  assert (Hgt : forall a b c d, (forall j, seg a j = seg c j) -> (forall j, seg b j = seg d j) ->
            cmp_loop a b 0 (max_len a b) = 1 -> cmp_loop c d 0 (max_len c d) = 1).
  { intros a b c d Ha Hb. rewrite !cmp_full_gt. intros (k & Hpre & Hk). exists k.
    rewrite <- Ha, <- Hb. split; [|exact Hk]. intros j Hj. rewrite <- Ha, <- Hb. auto. }
  assert (Hlt : forall a b, cmp_loop a b 0 (max_len a b) = -1 ->
            cmp_loop b a 0 (max_len b a) = 1).
  { intros a b E. rewrite cmp_loop_swap, max_len_comm in E. lia. }
  assert (Hlt' : forall a b, cmp_loop b a 0 (max_len b a) = 1 ->
            cmp_loop a b 0 (max_len a b) = -1).
  { intros a b E. rewrite cmp_loop_swap, max_len_comm, E. reflexivity. }
  destruct (cmp_loop_range p1 p2 0 (max_len p1 p2)) as [E|[E|E]].
  - rewrite E. symmetry. exact (Hgt _ _ _ _ H1 H2 E).
  - rewrite E. symmetry. apply Hlt'. apply (Hgt p2 p1); auto.
  - rewrite E. symmetry. apply cmp_full_tie. intros j. rewrite <- H1, <- H2.
    revert j. apply cmp_full_tie. exact E.
Qed.

Lemma split_on_nonempty (sep : ascii) (s : string) : split_on sep s <> [].
Proof.
  destruct s as [|c r]; simpl; [discriminate|].
  destruct (Ascii.eqb c sep); [discriminate|]. destruct (split_on sep r); discriminate.
Qed.

(** Splitting at a separator written between [v] and [w]. *)
Lemma split_on_app (sep : ascii) (v w : string) :
  split_on sep (v ++ String sep w) = split_on sep v ++ split_on sep w.
Proof.
  induction v as [|c v IH]; simpl.
  - rewrite Ascii.eqb_refl. reflexivity.
  - rewrite IH. destruct (Ascii.eqb c sep); [reflexivity|].
    destruct (split_on sep v) as [|h t] eqn:E; [exfalso; exact (split_on_nonempty sep v E)|].
    reflexivity.
Qed.

Lemma seg_app_falsy (p zs : list jsnum) (i : nat) :
  Forall (fun x => js_truthy x = false) zs -> seg (p ++ zs) i = seg p i.
Proof.
  intros Hz. unfold seg. destruct (Nat.lt_ge_cases i (length p)) as [Hi|Hi].
  - rewrite nth_error_app1 by exact Hi. reflexivity.
  - rewrite nth_error_app2 by exact Hi.
    rewrite (proj2 (nth_error_None p i)) by exact Hi. simpl.
    destruct (nth_error zs (i - length p)) as [x|] eqn:E; [|reflexivity].
    apply nth_error_In in E. rewrite Forall_forall in Hz. simpl. rewrite (Hz x E).
    reflexivity.
Qed.

Lemma cmp_full_trans (p1 p2 p3 : list jsnum) :
  0 <= cmp_loop p1 p2 0 (max_len p1 p2) -> 0 <= cmp_loop p2 p3 0 (max_len p2 p3) ->
  cmp_loop p1 p3 0 (max_len p1 p3) =
    Z.max (cmp_loop p1 p2 0 (max_len p1 p2)) (cmp_loop p2 p3 0 (max_len p2 p3)).
Proof.
  intros H12 H23.
  destruct (cmp_loop_range p1 p2 0 (max_len p1 p2)) as [E12|[E12|E12]]; [| lia |];
  (destruct (cmp_loop_range p2 p3 0 (max_len p2 p3)) as [E23|[E23|E23]]; [| lia |]);
  rewrite E12, E23; simpl.
  - apply cmp_full_gt in E12 as (k1 & Hpre1 & Hgt1).
    apply cmp_full_gt in E23 as (k2 & Hpre2 & Hgt2).
    apply cmp_full_gt.
    destruct (lt_eq_lt_dec k1 k2) as [[Hk|<-]|Hk].
    + exists k1. split.
      * intros j Hj. apply (tie_trans _ (seg p2 j)); [apply seg_not_nan|auto|apply Hpre2; lia].
      * apply (gt_tie_trans _ (seg p2 k1)); [apply seg_not_nan|exact Hgt1|apply Hpre2; exact Hk].
    + exists k1. split.
      * intros j Hj. apply (tie_trans _ (seg p2 j)); [apply seg_not_nan|auto|auto].
      * exact (gt_gt_trans _ _ _ Hgt1 Hgt2).
    + exists k2. split.
      * intros j Hj. apply (tie_trans _ (seg p2 j)); [apply seg_not_nan|apply Hpre1; lia|auto].
      * apply (tie_gt_trans _ (seg p2 k2)); [apply seg_not_nan|apply Hpre1; exact Hk|exact Hgt2].
  - apply cmp_full_gt in E12 as (k1 & Hpre1 & Hgt1).
    rewrite cmp_full_tie in E23.
    apply cmp_full_gt. exists k1. split.
    + intros j Hj. apply (tie_trans _ (seg p2 j)); [apply seg_not_nan|auto|auto].
    + apply (gt_tie_trans _ (seg p2 k1)); [apply seg_not_nan|exact Hgt1|auto].
  - rewrite cmp_full_tie in E12.
    apply cmp_full_gt in E23 as (k2 & Hpre2 & Hgt2).
    apply cmp_full_gt. exists k2. split.
    + intros j Hj. apply (tie_trans _ (seg p2 j)); [apply seg_not_nan|auto|auto].
    + apply (tie_gt_trans _ (seg p2 k2)); [apply seg_not_nan|auto|exact Hgt2].
  - rewrite cmp_full_tie in E12, E23. apply cmp_full_tie. intros j.
    apply (tie_trans _ (seg p2 j)); [apply seg_not_nan|auto|auto].
Qed.

End VersionOrder.

Section VersionOrderProps.

(** X1: [compareVersions] is a total preorder: when [a] is not older than
    [b] and [b] is not older than [c], [a] is not older than [c], and
    [compareVersions a c] is 1 exactly when one of the two steps is strict
    (so versions comparing equal are interchangeable). *)
Theorem compareVersions_trans (a b c : string) :
  0 <= compareVersions a b -> 0 <= compareVersions b c ->
  compareVersions a c = Z.max (compareVersions a b) (compareVersions b c).
Proof.
  unfold compareVersions, compareVersions_with. apply cmp_full_trans.
Qed.

(** X2: appending to a version further ['.']-separated segments that the
    segment reader maps to 0 or [NaN] (for JS [Number]: such as [".0"],
    [".0.0"], [".x"] or a trailing ['.']) changes no comparison with any
    other version; this holds whatever reader [N] the comparison uses. *)
Theorem compareVersions_falsy_suffix (N : string -> jsnum) (v z w : string) :
  Forall (fun x => js_truthy (N x) = false) (split_on "."%char z) ->
  compareVersions_with N (v ++ String "."%char z) w = compareVersions_with N v w /\
  compareVersions_with N w (v ++ String "."%char z) = compareVersions_with N w v.
Proof.
  intros Hz.
  assert (E : compareVersions_with N (v ++ String "."%char z) w = compareVersions_with N v w).
  { unfold compareVersions_with, version_parts.
    rewrite split_on_app, map_app.
    apply (cmp_full_ext (map N (split_on "." v) ++ map N (split_on "." z))).
    - intros j. apply seg_app_falsy. apply Forall_map. exact Hz.
    - reflexivity. }
  split; [exact E|].
  rewrite (compareVersions_with_antisym _ w), (compareVersions_with_antisym _ w v).
  rewrite E. reflexivity.
Qed.

End VersionOrderProps.

(* ------------------------------------------------------------------ *)
(** ** How [checkForUpdates] ends *)

Section UpdateOutcomes.
Import AppApi.


(** X4: when the published version is the running one, written as is or
    with a leading ['v'], [checkForUpdates] reports no update, its
    [latestVersion] is the running version and the release link points to
    the tag ["v" ++ version]. *)
Theorem checkForUpdates_up_to_date (h : Host) (w : World) (cur : string)
    (r : Response) (body : jsv) :
  host_version h = inr cur ->
  host_net h LATEST_JSON_URL = Some r -> ok r = true -> json_body r = Some body ->
  get body "version" = JString (String "v"%char cur) \/
  (get body "version" = JString cur /\ forall t, cur <> String "v"%char t) ->
  exists info,
    checkForUpdates h w = (LATEST_JSON_URL :: w, inr info) /\
    hasUpdate info = false /\
    latestVersion info = cur /\
    releaseUrl info = (GITHUB_URL ++ "/releases/tag/v" ++ cur)%string.
Proof.
  intros Hver Hn Hok Hj Hv.
  assert (Hl : release_version body = inr cur).
  { destruct body as [| | | | | |fields];
      try (destruct Hv as [Hv|[Hv _]]; discriminate).
    unfold release_version. destruct Hv as [Hv|[Hv Hnv]]; rewrite Hv.
    - simpl. unfold js_or_str.
      destruct (String.eqb_spec cur "") as [E|]; [rewrite E|]; reflexivity.
    - unfold js_or_str. destruct cur as [|c t]; [reflexivity|].
      destruct (Ascii.eqb_spec c "v"%char) as [->|Hc]; [exfalso; apply (Hnv t); reflexivity|].
      simpl. rewrite (proj2 (Ascii.eqb_neq c "v"%char) Hc). reflexivity. }
  unfold checkForUpdates, bind, getVersion, lift, fetch, ret. rewrite Hver, Hn, Hok. simpl.
  unfold response_json. rewrite Hj. unfold ret, lift. simpl. rewrite Hl.
  eexists. split; [reflexivity|]. simpl.
  unfold compareVersions, compareVersions_with. rewrite cmp_loop_refl.
  split; [reflexivity|]. split; reflexivity.
Qed.

End UpdateOutcomes.

Section ConfigListener.
Import Providers.

Lemma count_of_cons (x y : string) (l : list string) :
  count_of x (y :: l) = (if String.eqb x y then 1 else 0) + count_of x l.
Proof.
  unfold count_of. cbn [filter]. destruct (String.eqb x y); cbn [List.length];
    rewrite ?Nat2Z.inj_succ; lia.
Qed.

(** X6: the config-change listener feeds the refresh store: after any
    sequence of ['config-changed'] events, [omoConfigRefreshKey] has grown by
    the number of ['oh-my-opencode'] payloads and [claudeProviderRefreshKey]
    by the number of ['claude-code'] payloads; any other payload changes
    neither counter. *)
Theorem deliver_counts (st : RefreshState) (payloads : list string) :
  omoConfigRefreshKey (deliver st payloads) =
    omoConfigRefreshKey st + count_of "oh-my-opencode" payloads /\
  claudeProviderRefreshKey (deliver st payloads) =
    claudeProviderRefreshKey st + count_of "claude-code" payloads.
Proof.
  unfold deliver. revert st; induction payloads as [|x xs IH]; intros st; simpl.
  - unfold count_of. simpl. lia.
  - destruct (IH (on_config_changed st x)) as [H1 H2]. rewrite H1, H2.
    rewrite !count_of_cons. unfold on_config_changed.
    destruct (String.eqb_spec x "oh-my-opencode") as [->|Ho].
    + cbn -[Z.add]. split; lia.
    + destruct (String.eqb_spec x "claude-code") as [->|Hc].
      * cbn -[Z.add]. split; lia.
      * rewrite (proj2 (String.eqb_neq "oh-my-opencode" x)) by congruence.
        rewrite (proj2 (String.eqb_neq "claude-code" x)) by congruence.
        cbn -[Z.add]. split; lia.
Qed.

End ConfigListener.

(* ------------------------------------------------------------------ *)
(** ** The fetch-models modal: opening, closing, reset and fetch *)

Section ModalLifecycle.
Import FetchModelsModal.

Lemma set_customUrl_committed (p : Props) (s : State) (u : string) :
  committed p s -> committed p (set_customUrl u s).
Proof. intros H. exact H. Qed.

(** X8: reopening the modal starts afresh: from any state reachable from
    the first render in which the modal is closed, the parent opening it
    empties the model list, the selection, the error and the search text,
    clears [fetched] and puts the computed URL into the URL field; the API
    type and the loading flag are kept. *)
Theorem reopen_resets (p0 : Props) (es : list Event) (p' : Props) :
  let c := run (mount p0) es in
  open (fst c) = false -> open p' = true ->
  let s' := snd (step c (ParentRender p')) in
  models s' = [] /\ selectedRowKeys s' = [] /\ error s' = None /\ fetched s' = false /\
  searchText s' = ""%string /\ customUrl s' = calc p' s' /\
  apiType s' = apiType (snd c) /\ loading s' = loading (snd c).
Proof.
  intros c. pose proof (reachable_committed p0 es) as Hc. fold c in Hc.
  destruct c as [p s]. cbn [fst snd] in *. intros Hclosed Hopen'.
  destruct Hc as [_ Ho]. simpl. unfold run_effects.
  rewrite Ho, Hclosed, Hopen'. simpl.
  destruct (negb (opt_eqb String.eqb (seen_calculatedUrl s) (calc p' s))); simpl;
    repeat split.
Qed.

(** X9: closing the modal keeps its data: when the parent passes
    [open = false] for the same provider (base URL, API key, SDK type), the
    fetched models, the selection, the error, the search text, the URL
    field, the API type and the loading flag all stay as they were. *)
Theorem close_keeps_state (p0 : Props) (es : list Event) (p' : Props) :
  let c := run (mount p0) es in
  open p' = false -> baseUrl p' = baseUrl (fst c) -> apiKey p' = apiKey (fst c) ->
  sdkType p' = sdkType (fst c) ->
  let s := snd c in
  let s' := snd (step c (ParentRender p')) in
  models s' = models s /\ selectedRowKeys s' = selectedRowKeys s /\ error s' = error s /\
  fetched s' = fetched s /\ searchText s' = searchText s /\ customUrl s' = customUrl s /\
  apiType s' = apiType s /\ loading s' = loading s.
Proof.
  intros c. pose proof (reachable_committed p0 es) as Hc. fold c in Hc.
  destruct c as [p s]. cbn [fst snd] in *. intros Hclosed Hb Hk Hsdk.
  destruct Hc as [Hu _]. simpl. unfold run_effects.
  assert (E : calc p' s = calc p s) by (unfold calc; rewrite Hb, Hk, Hsdk; reflexivity).
  rewrite E, Hu, Hclosed. simpl. rewrite String.eqb_refl, andb_false_r. simpl.
  repeat split.
Qed.

(** X10: the reset button puts the computed URL into the URL field and
    changes nothing else, in every state reachable from the first render. *)
Theorem resetUrl_only_url (p0 : Props) (es : list Event) :
  let c := run (mount p0) es in
  step c ResetUrl = (fst c, set_customUrl (calc (fst c) (snd c)) (snd c)).
Proof.
  intros c. pose proof (reachable_committed p0 es) as Hc. fold c in Hc.
  destruct c as [p s]. cbn [fst snd] in *. simpl.
  rewrite run_effects_noop by (apply set_customUrl_committed, Hc). reflexivity.
Qed.

(** X11: a successful fetch round (click, then [invoke] resolving with
    [ms]) from any reachable state shows exactly [ms], clears the error and
    the selection, marks the list fetched and ends with [loading] false; the
    URL field, the search text, the API type and the props are kept. *)
Theorem fetch_success_round (p0 : Props) (es : list Event) (ms : list FetchedModel) :
  let c := run (mount p0) es in
  let c' := step (step c FetchClick) (FetchSettled (inr ms)) in
  fst c' = fst c /\
  models (snd c') = ms /\ selectedRowKeys (snd c') = [] /\ error (snd c') = None /\
  fetched (snd c') = true /\ loading (snd c') = false /\
  customUrl (snd c') = customUrl (snd c) /\ searchText (snd c') = searchText (snd c) /\
  apiType (snd c') = apiType (snd c).
Proof.
  intros c. pose proof (reachable_committed p0 es) as Hc. fold c in Hc.
  destruct c as [p s]. cbn [fst snd] in *.
  cbn -[run_effects handleFetch_start handleFetch_settle].
  rewrite (run_effects_noop p (handleFetch_start s))
    by (apply handleFetch_start_committed, Hc).
  cbn -[run_effects handleFetch_start handleFetch_settle].
  rewrite (run_effects_noop p (handleFetch_settle (handleFetch_start s) (inr ms)))
    by (apply handleFetch_settle_committed, handleFetch_start_committed, Hc).
  repeat split.
Qed.

End ModalLifecycle.

(* ------------------------------------------------------------------ *)
(** ** Submitting the oh-my-opencode global config *)

Section OmoSubmit.
Import OmoGlobalConfig.

Lemma js_or_truthy (a b : jsv) : truthy b = true -> truthy (js_or a b) = true.
Proof. unfold js_or. destruct (truthy a) eqn:E; auto. Qed.

Lemma js_or_idem (a b : jsv) : truthy b = true -> js_or (js_or a b) b = js_or a b.
Proof. intros Hb. unfold js_or at 1. rewrite (js_or_truthy a b Hb). reflexivity. Qed.

Lemma DEFAULT_SCHEMA_truthy : truthy (JString DEFAULT_SCHEMA) = true.
Proof. reflexivity. Qed.

(** X14: what [handleSubmit] emits is already normalised: submitting it
    again (with valid editors) emits the same value. *)
Theorem handleSubmit_idempotent (lspValid experimentalValid otherFieldsValid : bool) (v r : jsv) :
  handleSubmit lspValid experimentalValid otherFieldsValid v = Some r ->
  handleSubmit true true true r = Some r.
Proof.
  unfold handleSubmit.
  destruct (negb lspValid || negb experimentalValid || negb otherFieldsValid); [discriminate|].
  intros Hr. injection Hr as <-. simpl.
  rewrite (js_or_idem _ _ DEFAULT_SCHEMA_truthy), !(js_or_idem _ (JArray [])) by reflexivity.
  reflexivity.
Qed.

End OmoSubmit.

(* ------------------------------------------------------------------ *)
(** ** The properties at concrete inputs *)

Section ExtraWitnesses.

Lemma compareVersions_trans_witness :
  compareVersions "1.10" "1.9.9" = 1 /\ compareVersions "1.9.9" "1.9.9.0" = 0 /\
  compareVersions "1.10" "1.9.9.0" = 1.
Proof.
  split; [vm_compute; reflexivity|]. split; [vm_compute; reflexivity|].
  rewrite (compareVersions_trans "1.10" "1.9.9" "1.9.9.0")
    by (vm_compute; discriminate).
  vm_compute. reflexivity.
Defined.

Lemma compareVersions_falsy_suffix_witness :
  Forall (fun x => js_truthy (js_Number x) = false) (split_on "."%char "0.0") /\
  compareVersions ("1.2" ++ String "."%char "0.0") "1.2.1" = compareVersions "1.2" "1.2.1" /\
  compareVersions "1.2.1" ("1.2" ++ String "."%char "0.0") = compareVersions "1.2.1" "1.2".
Proof.
  assert (Hz : Forall (fun x => js_truthy (js_Number x) = false) (split_on "."%char "0.0")).
  { change (split_on "."%char "0.0") with ["0"; "0"]%string.
    constructor; [vm_compute; reflexivity|].
    constructor; [vm_compute; reflexivity|constructor]. }
  split; [exact Hz|]. exact (compareVersions_falsy_suffix js_Number "1.2" "0.0" "1.2.1" Hz).
Defined.

Lemma checkForUpdates_up_to_date_witness :
  exists info,
    AppApi.checkForUpdates sample_current_host [] =
      ([AppApi.LATEST_JSON_URL], inr info) /\
    AppApi.hasUpdate info = false.
Proof.
  destruct (checkForUpdates_up_to_date sample_current_host [] "2.0.0"%string
              sample_ok_response sample_release
              ltac:(reflexivity) ltac:(reflexivity) ltac:(reflexivity) ltac:(reflexivity)
              ltac:(left; reflexivity))
    as (info & E & Hu & _).
  exists info. split; [exact E|exact Hu].
Defined.

Import FetchModelsModal.

Lemma reopen_resets_witness :
  models (snd (step (run (mount demo_props_closed) [FetchSettled (inr [demo_gpt4])])
                    (ParentRender demo_props))) = [].
Proof.
  exact (proj1 (reopen_resets demo_props_closed [FetchSettled (inr [demo_gpt4])] demo_props
                  ltac:(vm_compute; reflexivity) ltac:(vm_compute; reflexivity))).
Defined.

Lemma close_keeps_state_witness :
  models (snd (step (run (mount demo_props) [FetchSettled (inr [demo_gpt4])])
                    (ParentRender demo_props_closed))) =
  models (snd (run (mount demo_props) [FetchSettled (inr [demo_gpt4])])).
Proof.
  exact (proj1 (close_keeps_state demo_props [FetchSettled (inr [demo_gpt4])] demo_props_closed
                  ltac:(vm_compute; reflexivity) ltac:(vm_compute; reflexivity)
                  ltac:(vm_compute; reflexivity) ltac:(vm_compute; reflexivity))).
Defined.

Import OmoGlobalConfig.

Lemma handleSubmit_idempotent_witness :
  exists r, handleSubmit true true true (JObject []) = Some r /\
            handleSubmit true true true r = Some r.
Proof.
  eexists. split; [reflexivity|].
  apply (handleSubmit_idempotent true true true (JObject [])). reflexivity.
Defined.

End ExtraWitnesses.
